(** * auth0grant: a cached client-credentials grant

    A shallow embedding of package [auth0grant] (grant.go) and of the parts
    of the Go libraries it calls: [time], [encoding/json], [net/http] and
    [github.com/pkg/errors].  The earlier version of the file, in which
    [Grant] is an interface implemented by [grantRequest], has the same
    three methods with the same bodies.

    - Go strings are byte sequences; they are modelled by [string], whose
      characters are the bytes.  [int64] values are integers of [Z] kept in
      range by [wrap64].
    - The program acts on a [World]: the system clock and the network,
      which logs every POST it is sent.  A method of [*Grant] takes the
      [Grant] and returns it as the call leaves it.
    - [json.Marshal] and [Decoder.Decode] are modelled on the bytes: the
      encoder with its escapes, the decoder as a reader of JSON text
      followed by the rules that store a value in a struct. *)

From Stdlib Require Import ZArith List String Ascii Bool Lia.
Import ListNotations.

Local Open Scope string_scope.
Local Open Scope Z_scope.

(** ** Bytes *)

Module Bytes.

(** The value of a byte, between 0 and 255. *)
Definition val (c : ascii) : Z := Z.of_N (N_of_ascii c).

(** The byte of a value (taken modulo 256). *)
Definition of_val (z : Z) : ascii := ascii_of_N (Z.to_N (z mod 256)).

Definition eqb (a b : ascii) : bool := Ascii.eqb a b.

(** [lo <= c <= hi] on byte values. *)
Definition between (lo hi : Z) (c : ascii) : bool :=
  (lo <=? val c) && (val c <=? hi).

Definition dquote : ascii := "034"%char.
Definition backslash : ascii := "092"%char.

(** The digits of [const hex = "0123456789abcdef"]. *)
Definition hex (d : Z) : ascii :=
  if d <? 10 then of_val (48 + d) else of_val (87 + d).

(** Writes a text whose double quotes are typed as single quotes. *)
Fixpoint text (s : string) : string :=
  match s with
  | EmptyString => EmptyString
  | String c r => String (if eqb c "'"%char then dquote else c) (text r)
  end.

End Bytes.

(** Drops the first [n] bytes of a string. *)
Fixpoint string_drop (n : nat) (s : string) : string :=
  match n, s with
  | O, _ => s
  | S n', String _ r => string_drop n' r
  | S _, EmptyString => EmptyString
  end.

(** Keeps the first [n] bytes of a string. *)
Fixpoint string_take (n : nat) (s : string) : string :=
  match n, s with
  | O, _ => EmptyString
  | S n', String c r => String c (string_take n' r)
  | S _, EmptyString => EmptyString
  end.

Definition string_len (s : string) : nat := String.length s.

(** ** Package unicode/utf8 *)

Module utf8.

Definition RuneSelf : Z := 128.
Definition RuneError : Z := 65533.          (* U+FFFD *)
Definition MaxRune : Z := 1114111.          (* U+10FFFF *)

(** The entry of table [first] for a leading byte: [None] for an ASCII or
    an invalid byte (entries [as] and [xx]), else the length of the
    sequence and the accepted range of its second byte. *)
Definition first (p0 : Z) : option (Z * Z * Z) :=
  if p0 <? 194 then None                                  (* 00..C1 *)
  else if p0 <=? 223 then Some (2, 128, 191)              (* C2..DF *)
  else if p0 =? 224 then Some (3, 160, 191)               (* E0 *)
  else if p0 <=? 236 then Some (3, 128, 191)              (* E1..EC *)
  else if p0 =? 237 then Some (3, 128, 159)               (* ED *)
  else if p0 <=? 239 then Some (3, 128, 191)              (* EE..EF *)
  else if p0 =? 240 then Some (4, 144, 191)               (* F0 *)
  else if p0 <=? 243 then Some (4, 128, 191)              (* F1..F3 *)
  else if p0 =? 244 then Some (4, 128, 143)               (* F4 *)
  else None.                                              (* F5..FF *)

Definition locb : Z := 128.
Definition hicb : Z := 191.

(** [DecodeRune]: the first rune of [p] and the number of bytes read. *)
Definition DecodeRune (p : string) : Z * Z :=
  match p with
  | EmptyString => (RuneError, 0)
  | String c0 r0 =>
      let p0 := Bytes.val c0 in
      match first p0 with
      | None => (if p0 <? RuneSelf then p0 else RuneError, 1)
      | Some (sz, lo, hi) =>
          match r0 with
          | EmptyString => (RuneError, 1)
          | String c1 r1 =>
              let b1 := Bytes.val c1 in
              if (b1 <? lo) || (hi <? b1) then (RuneError, 1)
              else if sz <=? 2 then
                (Z.lor (Z.shiftl (Z.land p0 31) 6) (Z.land b1 63), 2)
              else
                match r1 with
                | EmptyString => (RuneError, 1)
                | String c2 r2 =>
                    let b2 := Bytes.val c2 in
                    if (b2 <? locb) || (hicb <? b2) then (RuneError, 1)
                    else if sz <=? 3 then
                      (Z.lor (Z.lor (Z.shiftl (Z.land p0 15) 12)
                                    (Z.shiftl (Z.land b1 63) 6))
                             (Z.land b2 63), 3)
                    else
                      match r2 with
                      | EmptyString => (RuneError, 1)
                      | String c3 _ =>
                          let b3 := Bytes.val c3 in
                          if (b3 <? locb) || (hicb <? b3) then (RuneError, 1)
                          else
                            (Z.lor (Z.lor (Z.lor
                               (Z.shiftl (Z.land p0 7) 18)
                               (Z.shiftl (Z.land b1 63) 12))
                               (Z.shiftl (Z.land b2 63) 6))
                               (Z.land b3 63), 4)
                      end
                end
          end
      end
  end.

Definition byte1 (z : Z) : string := String (Bytes.of_val z) EmptyString.

(** The encoding of a rune that is no surrogate and at most [MaxRune]. *)
Definition encode (r : Z) : string :=
  if r <=? 127 then byte1 r
  else if r <=? 2047 then
    byte1 (Z.lor 192 (Z.shiftr r 6)) ++ byte1 (Z.lor 128 (Z.land r 63))
  else if r <=? 65535 then
    byte1 (Z.lor 224 (Z.shiftr r 12))
    ++ byte1 (Z.lor 128 (Z.land (Z.shiftr r 6) 63))
    ++ byte1 (Z.lor 128 (Z.land r 63))
  else
    byte1 (Z.lor 240 (Z.shiftr r 18))
    ++ byte1 (Z.lor 128 (Z.land (Z.shiftr r 12) 63))
    ++ byte1 (Z.lor 128 (Z.land (Z.shiftr r 6) 63))
    ++ byte1 (Z.lor 128 (Z.land r 63)).

(** [EncodeRune]: a rune out of range or a surrogate is written as
    [RuneError]. *)
Definition EncodeRune (r : Z) : string :=
  if (r <? 0) || (MaxRune <? r) || ((55296 <=? r) && (r <=? 57343))
  then encode RuneError
  else encode r.

(** The loop of [ValidString]: no byte of [s] starts an ill-formed
    sequence. *)
Fixpoint ValidLoop (fuel : nat) (s : string) : bool :=
  match fuel with
  | O => match s with EmptyString => true | String _ _ => false end
  | S fuel' =>
      match s with
      | EmptyString => true
      | String _ _ =>
          let '(rn, size) := DecodeRune s in
          if (rn =? RuneError) && (size =? 1) then false
          else ValidLoop fuel' (string_drop (Z.to_nat size) s)
      end
  end.

Definition ValidString (s : string) : bool := ValidLoop (string_len s) s.

End utf8.

(** ** Package encoding/json

    The encoder covers the values [Marshal] can be handed here (strings,
    booleans and structs of them; channels and functions, which it
    refuses).  The decoder reads the first JSON value of a text the way
    [Decoder.Decode] does and keeps what follows it unread.  The limit the
    later releases of Go put on the nesting depth is not modelled. *)

Module json.

Inductive error : Type :=
| UnsupportedTypeError (ty : string)
    (* Marshal: a value of a type that has no JSON form *)
| SyntaxError
    (* Decode: the text is no JSON value (this stands for *SyntaxError,
       io.EOF and io.ErrUnexpectedEOF alike) *)
| UnmarshalTypeError (value : string) (field : string).
    (* Decode: a JSON value that does not fit the Go field *)

(** *** Marshal *)

(** The Go values handed to [Marshal], a struct with the JSON keys of
    its fields in the order of their declaration. *)
#[warnings="-register-all"]
Inductive govalue : Type :=
| VString (s : string)
| VBool (b : bool)
| VStruct (fields : list (string * govalue))
| VChan
| VFunc.

(** [htmlSafeSet]: the ASCII bytes written as they are. *)
Definition htmlSafeSet (b : Z) : bool :=
  (32 <=? b) && (b <? 128)
  && negb ((b =? 34) || (b =? 38) || (b =? 60) || (b =? 62) || (b =? 92)).

(** What follows the backslash for an ASCII byte that is escaped. *)
Definition escapeByte (b : Z) : string :=
  if (b =? 92) || (b =? 34) then utf8.byte1 b
  else if b =? 10 then "n"
  else if b =? 13 then "r"
  else if b =? 9 then "t"
  else "u00" ++ String (Bytes.hex (Z.shiftr b 4))
                 (String (Bytes.hex (Z.land b 15)) EmptyString).

(** The loop of [encodeState.string] with [escapeHTML] set, as [Marshal]
    runs it; [fuel] bounds the number of iterations.  (Bytes 8 and 12
    are written [\u0008] and [\u000c], as the releases of Go of the
    repository's time do; later ones write [\b] and [\f].) *)
Fixpoint encodeStringLoop (fuel : nat) (s : string) : string :=
  match fuel with
  | O => EmptyString
  | S fuel' =>
      match s with
      | EmptyString => EmptyString
      | String c r =>
          let b := Bytes.val c in
          if b <? utf8.RuneSelf then
            if htmlSafeSet b then String c (encodeStringLoop fuel' r)
            else String Bytes.backslash
                   (escapeByte b ++ encodeStringLoop fuel' r)
          else
            let '(rn, size) := utf8.DecodeRune s in
            if (rn =? utf8.RuneError) && (size =? 1) then
              String Bytes.backslash
                ("ufffd" ++ encodeStringLoop fuel' r)
            else if (rn =? 8232) || (rn =? 8233) then
              String Bytes.backslash
                ("u202" ++ String (Bytes.hex (Z.land rn 15))
                   (encodeStringLoop fuel' (string_drop (Z.to_nat size) s)))
            else
              string_take (Z.to_nat size) s
              ++ encodeStringLoop fuel' (string_drop (Z.to_nat size) s)
      end
  end.

Definition encodeString (s : string) : string :=
  String Bytes.dquote
    (encodeStringLoop (string_len s) s ++ String Bytes.dquote EmptyString).

(** The encoding of a value, or the error that stops it. *)
Fixpoint encodeValue (v : govalue) : string + error :=
  match v with
  | VString s => inl (encodeString s)
  | VBool b => inl (if b then "true" else "false")
  | VStruct fields =>
      let members :=
        (fix members (first : bool) (fs : list (string * govalue))
           : string + error :=
           match fs with
           | [] => inl EmptyString
           | (k, x) :: tl =>
               match encodeValue x with
               | inr e => inr e
               | inl sx =>
                   match members false tl with
                   | inr e => inr e
                   | inl stl =>
                       inl ((if first then "" else ",")
                            ++ encodeString k ++ ":" ++ sx ++ stl)
                   end
               end
           end) in
      match members true fields with
      | inl body => inl ("{" ++ body ++ "}")
      | inr e => inr e
      end
  | VChan => inr (UnsupportedTypeError "chan")
  | VFunc => inr (UnsupportedTypeError "func")
  end.

(** [Marshal]: the encoding and a nil error, or no bytes and the error. *)
Definition Marshal (v : govalue) : string * option error :=
  match encodeValue v with
  | inl s => (s, None)
  | inr e => (EmptyString, Some e)
  end.

(** *** Decode: reading a JSON value *)

#[warnings="-register-all"]
Inductive value : Type :=
| Null
| Bool (b : bool)
| Number (lit : string)            (* the literal as it is written *)
| Str (s : string)                 (* the string, unquoted *)
| Array (elems : list value)
| Object (members : list (string * value)).

(** The outcome of reading a prefix of a text. *)
Inductive parsed (A : Type) : Type :=
| Parsed (a : A) (rest : string)
| Malformed
| OutOfFuel.
Arguments Parsed {A} a rest.
Arguments Malformed {A}.
Arguments OutOfFuel {A}.

Definition isSpace (c : ascii) : bool :=
  let b := Bytes.val c in (b =? 32) || (b =? 9) || (b =? 13) || (b =? 10).

Fixpoint skipSpace (s : string) : string :=
  match s with
  | String c r => if isSpace c then skipSpace r else s
  | EmptyString => s
  end.

Definition isDigit (c : ascii) : bool := Bytes.between 48 57 c.

(** The value of a hexadecimal digit, of either case. *)
Definition hexVal (c : ascii) : option Z :=
  let b := Bytes.val c in
  if Bytes.between 48 57 c then Some (b - 48)
  else if Bytes.between 97 102 c then Some (b - 87)
  else if Bytes.between 65 70 c then Some (b - 55)
  else None.

(** The four hexadecimal digits a text starts with, as a number. *)
Definition hex4 (s : string) : option Z :=
  match s with
  | String a (String b (String c (String d _))) =>
      match hexVal a, hexVal b, hexVal c, hexVal d with
      | Some x, Some y, Some z, Some w =>
          Some (x * 4096 + y * 256 + z * 16 + w)
      | _, _, _, _ => None
      end
  | _ => None
  end.

(** [getu4]: the rune of a leading [\uXXXX], or -1. *)
Definition getu4 (s : string) : Z :=
  match s with
  | String c0 (String c1 r) =>
      if Bytes.eqb c0 Bytes.backslash && Bytes.eqb c1 "u"%char then
        match hex4 r with Some n => n | None => -1 end
      else -1
  | _ => -1
  end.

(** Package unicode/utf16, as far as [unquote] uses it. *)
Definition utf16_IsSurrogate (r : Z) : bool := (55296 <=? r) && (r <? 57344).

Definition utf16_DecodeRune (r1 r2 : Z) : Z :=
  if (55296 <=? r1) && (r1 <? 56320) && (56320 <=? r2) && (r2 <? 57344)
  then Z.lor (Z.shiftl (r1 - 55296) 10) (r2 - 56320) + 65536
  else utf8.RuneError.

Definition prepend (p : string) (x : parsed string) : parsed string :=
  match x with
  | Parsed a rest => Parsed (p ++ a) rest
  | Malformed => Malformed
  | OutOfFuel => OutOfFuel
  end.

(** The bytes of a string literal after its opening quote: the scanner's
    checks and [unquote] in one pass.  The result is the string the
    literal denotes, coerced to well-formed UTF-8, and the text after
    the closing quote. *)
Fixpoint parseStringLoop (fuel : nat) (s : string) : parsed string :=
  match fuel with
  | O => OutOfFuel
  | S fuel' =>
      match s with
      | EmptyString => Malformed
      | String c r =>
          let b := Bytes.val c in
          if b =? 34 then Parsed EmptyString r
          else if b =? 92 then
            match r with
            | EmptyString => Malformed
            | String e r' =>
                let eb := Bytes.val e in
                if (eb =? 34) || (eb =? 92) || (eb =? 47) then
                  prepend (utf8.byte1 eb) (parseStringLoop fuel' r')
                else if eb =? 98 then                       (* \b *)
                  prepend (utf8.byte1 8) (parseStringLoop fuel' r')
                else if eb =? 102 then                      (* \f *)
                  prepend (utf8.byte1 12) (parseStringLoop fuel' r')
                else if eb =? 110 then                      (* \n *)
                  prepend (utf8.byte1 10) (parseStringLoop fuel' r')
                else if eb =? 114 then                      (* \r *)
                  prepend (utf8.byte1 13) (parseStringLoop fuel' r')
                else if eb =? 116 then                      (* \t *)
                  prepend (utf8.byte1 9) (parseStringLoop fuel' r')
                else if eb =? 117 then                      (* \uXXXX *)
                  let rr := getu4 s in
                  if rr <? 0 then Malformed
                  else
                    let s6 := string_drop 6 s in
                    if utf16_IsSurrogate rr then
                      let dec := utf16_DecodeRune rr (getu4 s6) in
                      if negb (dec =? utf8.RuneError) then
                        prepend (utf8.EncodeRune dec)
                          (parseStringLoop fuel' (string_drop 6 s6))
                      else
                        prepend (utf8.EncodeRune utf8.RuneError)
                          (parseStringLoop fuel' s6)
                    else
                      prepend (utf8.EncodeRune rr) (parseStringLoop fuel' s6)
                else Malformed
            end
          else if b <? 32 then Malformed
          else if b <? utf8.RuneSelf then
            prepend (String c EmptyString) (parseStringLoop fuel' r)
          else
            let '(rr, size) := utf8.DecodeRune s in
            prepend (utf8.EncodeRune rr)
              (parseStringLoop fuel' (string_drop (Z.to_nat size) s))
      end
  end.

(** A string literal whose opening quote has been read. *)
Definition parseString (s : string) : parsed string :=
  parseStringLoop (S (string_len s)) s.

(** The digits a text starts with, and what follows them. *)
Fixpoint takeDigits (s : string) : string * string :=
  match s with
  | String c r =>
      if isDigit c then
        let '(ds, rest) := takeDigits r in (String c ds, rest)
      else (EmptyString, s)
  | EmptyString => (EmptyString, s)
  end.

(** Chaining two readers. *)
Definition pbind {A B : Type} (x : parsed A) (k : A -> string -> parsed B)
  : parsed B :=
  match x with
  | Parsed a rest => k a rest
  | Malformed => Malformed
  | OutOfFuel => OutOfFuel
  end.

(** The sign a text starts with, if it has one of the signs [allowed]. *)
Definition takeSign (allowed : ascii -> bool) (s : string) : string * string :=
  match s with
  | String c r => if allowed c then (String c EmptyString, r) else (EmptyString, s)
  | EmptyString => (EmptyString, s)
  end.

Definition isMinus (c : ascii) : bool := Bytes.eqb c "-"%char.

Definition isPlusOrMinus (c : ascii) : bool :=
  Bytes.eqb c "+"%char || Bytes.eqb c "-"%char.

(** One digit or more. *)
Definition parseDigits (s : string) : parsed string :=
  match takeDigits s with
  | (EmptyString, _) => Malformed
  | (ds, rest) => Parsed ds rest
  end.

(** The exponent of a number literal, if one follows. *)
Definition parseExponent (s : string) : parsed string :=
  match s with
  | String c r =>
      if Bytes.eqb c "e"%char || Bytes.eqb c "E"%char then
        let '(sign, r1) := takeSign isPlusOrMinus r in
        pbind (parseDigits r1) (fun ds rest =>
        Parsed (String c (sign ++ ds)) rest)
      else Parsed EmptyString s
  | EmptyString => Parsed EmptyString s
  end.

(** The fraction of a number literal, if one follows. *)
Definition parseFraction (s : string) : parsed string :=
  match s with
  | String c r =>
      if Bytes.eqb c "."%char then
        pbind (parseDigits r) (fun ds rest => Parsed (String c ds) rest)
      else Parsed EmptyString s
  | EmptyString => Parsed EmptyString s
  end.

(** The integer part of a number literal: [0], or a digit from 1 to 9 and
    more digits. *)
Definition parseIntPart (s : string) : parsed string :=
  match s with
  | EmptyString => Malformed
  | String c r =>
      if Bytes.eqb c "0"%char then Parsed (String c EmptyString) r
      else if Bytes.between 49 57 c then
        let '(ds, rest) := takeDigits r in
        Parsed (String c ds) rest
      else Malformed
  end.

(** A number literal, by the states of the scanner: an optional minus
    sign, the integer part, an optional fraction and an optional
    exponent. *)
Definition parseNumber (s : string) : parsed string :=
  let '(sign, s1) := takeSign isMinus s in
  pbind (parseIntPart s1) (fun i r1 =>
  pbind (parseFraction r1) (fun f r2 =>
  pbind (parseExponent r2) (fun e r3 =>
  Parsed (sign ++ i ++ f ++ e) r3))).

(** [s] without its prefix [p], if it has it. *)
Fixpoint stripPrefix (p s : string) : option string :=
  match p, s with
  | EmptyString, _ => Some s
  | String a p', String b s' =>
      if Bytes.eqb a b then stripPrefix p' s' else None
  | String _ _, EmptyString => None
  end.

Definition pmap {A B : Type} (f : A -> B) (x : parsed A) : parsed B :=
  match x with
  | Parsed a rest => Parsed (f a) rest
  | Malformed => Malformed
  | OutOfFuel => OutOfFuel
  end.

(** The first JSON value of a text, after leading space, and the text
    that follows it.  [parseElems] reads the elements of an array from
    its first one to the closing bracket, [parseMembers] the members of
    an object from the first key to the closing brace. *)
Fixpoint parseValue (fuel : nat) (s : string) {struct fuel} : parsed value :=
  match fuel with
  | O => OutOfFuel
  | S fuel' =>
      match skipSpace s with
      | EmptyString => Malformed
      | String c r =>
          if Bytes.eqb c "{"%char then
            match skipSpace r with
            | EmptyString => Malformed
            | String c' r' =>
                if Bytes.eqb c' "}"%char then Parsed (Object []) r'
                else pmap Object (parseMembers fuel' (String c' r'))
            end
          else if Bytes.eqb c "["%char then
            match skipSpace r with
            | EmptyString => Malformed
            | String c' r' =>
                if Bytes.eqb c' "]"%char then Parsed (Array []) r'
                else pmap Array (parseElems fuel' (String c' r'))
            end
          else if Bytes.eqb c Bytes.dquote then pmap Str (parseString r)
          else if Bytes.eqb c "-"%char || isDigit c then
            pmap Number (parseNumber (String c r))
          else
            match stripPrefix "true" (String c r) with
            | Some rest => Parsed (Bool true) rest
            | None =>
                match stripPrefix "false" (String c r) with
                | Some rest => Parsed (Bool false) rest
                | None =>
                    match stripPrefix "null" (String c r) with
                    | Some rest => Parsed Null rest
                    | None => Malformed
                    end
                end
            end
      end
  end

with parseElems (fuel : nat) (s : string) {struct fuel}
  : parsed (list value) :=
  match fuel with
  | O => OutOfFuel
  | S fuel' =>
      match parseValue fuel' s with
      | Parsed v r =>
          match skipSpace r with
          | EmptyString => Malformed
          | String c r' =>
              if Bytes.eqb c ","%char then
                pmap (cons v) (parseElems fuel' r')
              else if Bytes.eqb c "]"%char then Parsed [v] r'
              else Malformed
          end
      | Malformed => Malformed
      | OutOfFuel => OutOfFuel
      end
  end

with parseMembers (fuel : nat) (s : string) {struct fuel}
  : parsed (list (string * value)) :=
  match fuel with
  | O => OutOfFuel
  | S fuel' =>
      match skipSpace s with
      | EmptyString => Malformed
      | String q r =>
          if Bytes.eqb q Bytes.dquote then
            match parseString r with
            | Parsed k r1 =>
                match skipSpace r1 with
                | EmptyString => Malformed
                | String c1 r2 =>
                    if Bytes.eqb c1 ":"%char then
                      match parseValue fuel' r2 with
                      | Parsed v r3 =>
                          match skipSpace r3 with
                          | EmptyString => Malformed
                          | String c3 r4 =>
                              if Bytes.eqb c3 ","%char then
                                pmap (cons (k, v)) (parseMembers fuel' r4)
                              else if Bytes.eqb c3 "}"%char then
                                Parsed [(k, v)] r4
                              else Malformed
                          end
                      | Malformed => Malformed
                      | OutOfFuel => OutOfFuel
                      end
                    else Malformed
                end
            | Malformed => Malformed
            | OutOfFuel => OutOfFuel
            end
          else Malformed
      end
  end.

(** The fuel that reading any value of a text takes at most. *)
Definition enough (s : string) : nat := S (2 * string_len s).

(** The first value of a text, as [Decoder.Decode] reads it. *)
Definition readValue (s : string) : parsed value := parseValue (enough s) s.

(** *** Decode: storing a JSON value in a Go struct *)

Definition minInt64 : Z := - 2 ^ 63.
Definition maxInt64 : Z := 2 ^ 63 - 1.

(** The number a string of decimal digits writes, after [acc]. *)
Fixpoint digitsVal (acc : Z) (s : string) : option Z :=
  match s with
  | EmptyString => Some acc
  | String c r =>
      if isDigit c then digitsVal (acc * 10 + (Bytes.val c - 48)) r
      else None
  end.

(** [strconv.ParseInt lit 10 64] on a number literal: it fails on a
    fraction, on an exponent and out of the range of [int64]. *)
Definition ParseInt64 (lit : string) : option Z :=
  let '(neg, ds) :=
    match lit with
    | String c r => if Bytes.eqb c "-"%char then (true, r) else (false, lit)
    | EmptyString => (false, lit)
    end in
  match ds with
  | EmptyString => None
  | _ =>
      match digitsVal 0 ds with
      | Some n =>
          let v := if neg then - n else n in
          if (minInt64 <=? v) && (v <=? maxInt64) then Some v else None
      | None => None
      end
  end.

(** What [UnmarshalTypeError.Value] says of a JSON value. *)
Definition kindName (v : value) : string :=
  match v with
  | Null => "null"
  | Bool _ => "bool"
  | Number _ => "number"
  | Str _ => "string"
  | Array _ => "array"
  | Object _ => "object"
  end.

(** [saveError]: the first error met is the one kept. *)
Definition saveError (saved : option error) (e : error) : option error :=
  match saved with
  | None => Some e
  | Some _ => saved
  end.

(** Storing a JSON value in a field of kind [string]: a string is
    stored, [null] leaves the field as it is, anything else is an
    error. *)
Definition storeString (field : string) (v : value) (old : string)
    (saved : option error) : string * option error :=
  match v with
  | Str s => (s, saved)
  | Null => (old, saved)
  | _ => (old, saveError saved (UnmarshalTypeError (kindName v) field))
  end.

(** Storing a JSON value in a field of kind [int64]. *)
Definition storeInt64 (field : string) (v : value) (old : Z)
    (saved : option error) : Z * option error :=
  match v with
  | Number lit =>
      match ParseInt64 lit with
      | Some n => (n, saved)
      | None =>
          (old, saveError saved (UnmarshalTypeError ("number " ++ lit) field))
      end
  | Null => (old, saved)
  | _ => (old, saveError saved (UnmarshalTypeError (kindName v) field))
  end.

(** [equalFoldRight s t], for a field name [s] written in ASCII: the
    letters match in either case, and [k] and [s] also match the Kelvin
    sign (E2 84 AA) and the long s (C5 BF). *)
Fixpoint equalFoldRight (s t : string) : bool :=
  match s with
  | EmptyString => match t with EmptyString => true | _ => false end
  | String sc s' =>
      match t with
      | EmptyString => false
      | String tc t' =>
          let sb := Bytes.val sc in
          let tb := Bytes.val tc in
          if tb <? utf8.RuneSelf then
            if sb =? tb then equalFoldRight s' t'
            else
              let sbUpper := Z.land sb 223 in
              if (65 <=? sbUpper) && (sbUpper <=? 90)
                 && (sbUpper =? Z.land tb 223)
              then equalFoldRight s' t'
              else false
          else
            let '(tr, size) := utf8.DecodeRune t in
            if ((sb =? 115) || (sb =? 83)) && (tr =? 383) then
              equalFoldRight s' (string_drop (Z.to_nat size) t)
            else if ((sb =? 107) || (sb =? 75)) && (tr =? 8490) then
              equalFoldRight s' (string_drop (Z.to_nat size) t)
            else false
      end
  end.

(** The field a key of an object is stored in: the one of that very
    name, else the first one whose name matches it in any case. *)
Definition findField (names : list string) (key : string) : option string :=
  match List.find (String.eqb key) names with
  | Some f => Some f
  | None => List.find (fun f => equalFoldRight f key) names
  end.

End json.

(** ** Package time

    A [Time] is modelled by the instant it denotes, in nanoseconds since
    the Unix epoch, and a [Duration] is its [int64] count of nanoseconds;
    [Add] and [After] are then the sum and the strict order of instants.
    The bounds of the representation of [Time] are not modelled. *)

Module time.

Definition Duration : Type := Z.
Definition Time : Type := Z.

Definition Nanosecond : Duration := 1.
Definition Second : Duration := 1000000000.

(** The arithmetic of [int64]: results wrap around. *)
Definition wrap64 (z : Z) : Z := (z + 2 ^ 63) mod 2 ^ 64 - 2 ^ 63.

Definition mul (a b : Duration) : Duration := wrap64 (a * b).

Definition Unix (sec nsec : Z) : Time := sec * 1000000000 + nsec.

(** The zero [Time]: January 1 of year 1, 00:00 UTC. *)
Definition zero : Time := Unix (-62135596800) 0.

Definition Add (t : Time) (d : Duration) : Time := t + d.

(** [t.After u]: [t] is strictly later than [u]. *)
Definition After (t u : Time) : bool := u <? t.

(** The system clock: the readings it gives, one after the other, and
    how many of them have been taken. *)
Record Clock : Type := mkClock {
  readings : nat -> Time;
  taken : nat
}.

(** A [func() time.Time]: it may read the clock. *)
Definition Func : Type := Clock -> Time * Clock.

Definition Now : Func :=
  fun c => (readings c (taken c), mkClock (readings c) (S (taken c))).

End time.

(** ** Package net/http, and the world outside the program *)

Module http.

Definition StatusOK : Z := 200.

(** A POST as the server receives it. *)
Record Request : Type := mkRequest {
  URL : string;
  ContentType : string;
  Payload : string
}.

(** A response: its code, its status line (as in [200 OK]) and the bytes
    its body delivers. *)
Record Response : Type := mkResponse {
  StatusCode : Z;
  Status : string;
  Body : string
}.

(** The network: what it answers to a POST, given the earlier ones (a
    response, or the message of a transport error), and the POSTs issued
    so far, oldest first. *)
Record Net : Type := mkNet {
  answer : list Request -> Request -> Response + string;
  posts : list Request
}.

End http.

(** The errors of Go that the package meets and builds. *)
Inductive error : Type :=
| JSONError (e : json.error)            (* an error of encoding/json *)
| TransportError (msg : string)         (* an error of http.Post *)
| Errorf (msg : string)                 (* errors.Errorf, formatted *)
| Wrap (err : error) (message : string).  (* errors.Wrap *)

Record World : Type := mkWorld {
  clock : time.Clock;
  net : http.Net
}.

(** Computations that act on the world. *)
Definition M (A : Type) : Type := World -> A * World.

Definition ret {A : Type} (a : A) : M A := fun w => (a, w).

Definition bind {A B : Type} (m : M A) (k : A -> M B) : M B :=
  fun w => let '(a, w') := m w in k a w'.

Notation "x <- m ;; k" := (bind m (fun x => k))
  (at level 61, m at next level, right associativity).

(** Calling a [func() time.Time]. *)
Definition call (f : time.Func) : M time.Time :=
  fun w => let '(t, c) := f (clock w) in (t, mkWorld c (net w)).

(** [http.Post url contentType body]: the POST is issued and logged, and
    the network answers. *)
Definition http_Post (url contentType : string) (body : string)
  : M (http.Response + string) :=
  fun w =>
    let r := http.mkRequest url contentType body in
    let n := net w in
    (http.answer n (http.posts n) r,
     mkWorld (clock w) (http.mkNet (http.answer n) (http.posts n ++ [r])%list)).

(** [ioutil.ReadAll] of a response body, its error dropped. *)
Definition ioutil_ReadAll (body : string) : string := body.

(** ** grant.go *)

(** [CredentialsRequest] contains the information needed to request
    credentials from the Auth0 authorization server. *)
Record CredentialsRequest : Type := mkCredentialsRequest {
  ClientID : string;        (* `json:"client_id"` *)
  ClientSecret : string;    (* `json:"client_secret"` *)
  Audience : string;        (* `json:"audience"` *)
  GrantType : string        (* `json:"grant_type"` *)
}.

Definition CLIENT_CREDS_GRANT_TYPE : string := "client_credentials".

Record clientCredsGrant : Type := mkClientCredsGrant {
  AccessToken : string;           (* `json:"access_token"` *)
  Scope : string;                 (* `json:"scope"` *)
  ExpiresIn : time.Duration;      (* `json:"expires_in"` *)
  TokenType : string              (* `json:"token_type"` *)
}.

(** [Grant] contains the credentials obtained from the authorization
    server; [grant] is a pointer, nil before the first renewal. *)
Record Grant : Type := mkGrant {
  grant : option clientCredsGrant;
  issuedAt : time.Time;
  tokenURL : string;
  credRequest : CredentialsRequest;
  nowFn : time.Func
}.

(** What [json.Marshal] sees of a [CredentialsRequest]: its four exported
    fields under the keys of their tags. *)
Definition CredentialsRequest_value (c : CredentialsRequest) : json.govalue :=
  json.VStruct
    [ ("client_id", json.VString (ClientID c));
      ("client_secret", json.VString (ClientSecret c));
      ("audience", json.VString (Audience c));
      ("grant_type", json.VString (GrantType c)) ].

(** The keys of a [clientCredsGrant], by its tags. *)
Definition clientCredsGrant_keys : list string :=
  [ "access_token"; "scope"; "expires_in"; "token_type" ].

(** [var grant clientCredsGrant]: the zero value. *)
Definition clientCredsGrant_zero : clientCredsGrant :=
  mkClientCredsGrant "" "" 0 "".

(** Storing one member of a JSON object in a [clientCredsGrant]; a key
    that names no field is skipped. *)
Definition clientCredsGrant_store
    (acc : clientCredsGrant * option json.error) (kv : string * json.value)
  : clientCredsGrant * option json.error :=
  let '(g, saved) := acc in
  let '(k, v) := kv in
  match json.findField clientCredsGrant_keys k with
  | None => acc
  | Some f =>
      if String.eqb f "access_token" then
        let '(x, sv) := json.storeString f v (AccessToken g) saved in
        (mkClientCredsGrant x (Scope g) (ExpiresIn g) (TokenType g), sv)
      else if String.eqb f "scope" then
        let '(x, sv) := json.storeString f v (Scope g) saved in
        (mkClientCredsGrant (AccessToken g) x (ExpiresIn g) (TokenType g), sv)
      else if String.eqb f "expires_in" then
        let '(x, sv) := json.storeInt64 f v (ExpiresIn g) saved in
        (mkClientCredsGrant (AccessToken g) (Scope g) x (TokenType g), sv)
      else
        let '(x, sv) := json.storeString f v (TokenType g) saved in
        (mkClientCredsGrant (AccessToken g) (Scope g) (ExpiresIn g) x, sv)
  end.

(** Storing a JSON value in a [clientCredsGrant]: the members of an
    object one after the other, nothing for [null], and an error for any
    other value. *)
Definition clientCredsGrant_unmarshal (v : json.value) (into : clientCredsGrant)
  : clientCredsGrant * option json.error :=
  match v with
  | json.Object members =>
      List.fold_left clientCredsGrant_store members (into, None)
  | json.Null => (into, None)
  | _ => (into, Some (json.UnmarshalTypeError (json.kindName v) ""))
  end.

(** [json.NewDecoder(body).Decode(&grant)]. *)
Definition Decode_clientCredsGrant (body : string) (into : clientCredsGrant)
  : clientCredsGrant * option json.error :=
  match json.readValue body with
  | json.Parsed v _ => clientCredsGrant_unmarshal v into
  | json.Malformed => (into, Some json.SyntaxError)
  | json.OutOfFuel => (into, Some json.SyntaxError)
  end.

(** [NewGrant] builds the handle; no request is made yet. *)
Definition NewGrant (tokenURL : string) (credRequest : CredentialsRequest)
  : Grant :=
  {| grant := None;
     issuedAt := time.zero;
     tokenURL := tokenURL;
     credRequest := credRequest;
     nowFn := time.Now |}.

Definition needsRenew (g : Grant) : M bool :=
  match grant g with
  | None => ret true
  | Some gr =>
      let expires := time.Add (issuedAt g) (ExpiresIn gr) in
      now <- call (nowFn g) ;;
      ret (time.After now expires)
  end.

(** [renewGrant] returns its error and the [Grant] as it leaves it.  The
    deferred [resp.Body.Close()] changes nothing that is modelled. *)
Definition renewGrant (g : Grant) : M (option error * Grant) :=
  let '(payload, err) := json.Marshal (CredentialsRequest_value (credRequest g)) in
  match err with
  | Some e => ret (Some (Wrap (JSONError e) "json encode cred request"), g)
  | None =>
      r <- http_Post (tokenURL g) "application/json" payload ;;
      match r with
      | inr e => ret (Some (Wrap (TransportError e) "cred http request"), g)
      | inl resp =>
          if negb (http.StatusCode resp =? http.StatusOK) then
            let body := ioutil_ReadAll (http.Body resp) in
            ret (Some (Errorf ("response status: " ++ http.Status resp
                               ++ ", body: " ++ body)), g)
          else
            let '(decoded, derr) :=
              Decode_clientCredsGrant (http.Body resp) clientCredsGrant_zero in
            match derr with
            | Some e =>
                ret (Some (Wrap (JSONError e) "decode grant from response"), g)
            | None =>
                let renewed :=
                  mkClientCredsGrant (AccessToken decoded) (Scope decoded)
                    (time.mul (ExpiresIn decoded) time.Second)
                    (TokenType decoded) in
                now <- call (nowFn g) ;;
                ret (None,
                     mkGrant (Some renewed) now (tokenURL g) (credRequest g)
                       (nowFn g))
            end
      end
  end.

(** What a call of [GetAccessToken] comes to: its two results, or the
    panic of reading through a nil [grant]. *)
Inductive outcome : Type :=
| Return (token : string) (err : option error)
| Panic.

(** [return g.grant.AccessToken, nil]. *)
Definition returnAccessToken (g : Grant) : outcome :=
  match grant g with
  | Some gr => Return (AccessToken gr) None
  | None => Panic
  end.

(** [GetAccessToken] returns its outcome and the [Grant] as it leaves
    it. *)
Definition GetAccessToken (g : Grant) : M (outcome * Grant) :=
  stale <- needsRenew g ;;
  if stale : bool then
    r <- renewGrant g ;;
    let '(err, g') := r in
    match err with
    | Some e => ret (Return "" (Some (Wrap e "renew grant")), g')
    | None => ret (returnAccessToken g', g')
    end
  else ret (returnAccessToken g, g).

(** ** The earlier version of grant.go

    In the earlier version of the file [Grant] is an interface with the one
    method [GetAccessToken], and [grantRequest] implements it; the request
    is held by pointer, which may be nil. *)

(** [json.Marshal] of a pointer: [null] for nil, else the encoding of what
    it points to. *)
Definition Marshal_pointer (p : option json.govalue)
  : string * option json.error :=
  match p with
  | None => ("null", None)
  | Some v => json.Marshal v
  end.

Module V0.

Record grantRequest : Type := mkGrantRequest {
  grant : option clientCredsGrant;
  issuedAt : time.Time;
  tokenURL : string;
  credRequest : option CredentialsRequest;     (* *CredentialsRequest *)
  nowFn : time.Func
}.

Definition NewGrant (tokenURL : string)
    (credRequest : option CredentialsRequest) : grantRequest :=
  {| grant := None;
     issuedAt := time.zero;
     tokenURL := tokenURL;
     credRequest := credRequest;
     nowFn := time.Now |}.

Definition needsRenew (g : grantRequest) : M bool :=
  match grant g with
  | None => ret true
  | Some gr =>
      let expires := time.Add (issuedAt g) (ExpiresIn gr) in
      now <- call (nowFn g) ;;
      ret (time.After now expires)
  end.

Definition renewGrant (g : grantRequest) : M (option error * grantRequest) :=
  let '(payload, err) :=
    Marshal_pointer (option_map CredentialsRequest_value (credRequest g)) in
  match err with
  | Some e => ret (Some (Wrap (JSONError e) "json encode cred request"), g)
  | None =>
      r <- http_Post (tokenURL g) "application/json" payload ;;
      match r with
      | inr e => ret (Some (Wrap (TransportError e) "cred http request"), g)
      | inl resp =>
          if negb (http.StatusCode resp =? http.StatusOK) then
            let body := ioutil_ReadAll (http.Body resp) in
            ret (Some (Errorf ("response status: " ++ http.Status resp
                               ++ ", body: " ++ body)), g)
          else
            let '(decoded, derr) :=
              Decode_clientCredsGrant (http.Body resp) clientCredsGrant_zero in
            match derr with
            | Some e =>
                ret (Some (Wrap (JSONError e) "decode grant from response"), g)
            | None =>
                let renewed :=
                  mkClientCredsGrant (AccessToken decoded) (Scope decoded)
                    (time.mul (ExpiresIn decoded) time.Second)
                    (TokenType decoded) in
                now <- call (nowFn g) ;;
                ret (None,
                     mkGrantRequest (Some renewed) now (tokenURL g)
                       (credRequest g) (nowFn g))
            end
      end
  end.

Definition returnAccessToken (g : grantRequest) : outcome :=
  match grant g with
  | Some gr => Return (AccessToken gr) None
  | None => Panic
  end.

Definition GetAccessToken (g : grantRequest) : M (outcome * grantRequest) :=
  stale <- needsRenew g ;;
  if stale : bool then
    r <- renewGrant g ;;
    let '(err, g') := r in
    match err with
    | Some e => ret (Return "" (Some (Wrap e "renew grant")), g')
    | None => ret (returnAccessToken g', g')
    end
  else ret (returnAccessToken g, g).

End V0.

(** The [grantRequest] that holds what a [Grant] of the later version
    holds, its request by pointer. *)
Definition ofGrant (g : Grant) : V0.grantRequest :=
  V0.mkGrantRequest (grant g) (issuedAt g) (tokenURL g)
    (Some (credRequest g)) (nowFn g).

(** ** The fixtures of grant_test.go *)

Definition testGrantResponse : string :=
  Bytes.text "{'access_token':'open-sesame','scope':'u-cant-touch-dis','expires_in':1,'token_type':'Bearer'}".

Definition testGrant : clientCredsGrant :=
  {| AccessToken := "open-sesame";
     Scope := "u-cant-touch-dis";
     TokenType := "Bearer";
     ExpiresIn := time.Second |}.

Definition testCredRequest : CredentialsRequest :=
  {| ClientID := "joe-blow-id";
     ClientSecret := "joe-blow-secret";
     Audience := "https://api.blowcorp.co/";
     GrantType := CLIENT_CREDS_GRANT_TYPE |}.

(** [testNowFn offset]: a clock stopped at [offset] seconds. *)
Definition testNowFn (offset : Z) : time.Func :=
  fun c => (time.Unix offset 0, c).

(** [testNewGrant]: [NewGrant] with the time source replaced.  As in the
    test file, the request it is handed is not the one it uses. *)
Definition testNewGrant (tokenURL : string) (credRequest : CredentialsRequest)
    (nowFn : time.Func) : Grant :=
  match NewGrant tokenURL testCredRequest with
  | mkGrant gr issued url req _ => mkGrant gr issued url req nowFn
  end.

(** A network whose server answers every POST with the same response. *)
Definition serverAnswering (resp : http.Response) : http.Net :=
  http.mkNet (fun _ _ => inl resp) [].

(** The test server: 200 and [testGrantResponse]. *)
Definition testServer : http.Net :=
  serverAnswering (http.mkResponse 200 "200 OK" testGrantResponse).

(** A system clock that starts at [t0] nanoseconds and advances by one
    at each reading. *)
Definition clockFrom (t0 : Z) : time.Clock :=
  time.mkClock (fun n => t0 + Z.of_nat n) 0.

Definition testWorld : World := mkWorld (clockFrom 0) testServer.

(** The caches of the three tests: empty, expired (issued at 1s for one
    second, read at 3s) and fresh (read at 1s). *)
Definition testURL : string := "http://127.0.0.1:8080/oauth/token".

Definition emptyCache : Grant :=
  testNewGrant testURL testCredRequest (testNowFn 1).

Definition expiredCache : Grant :=
  mkGrant (Some testGrant) (time.Unix 1 0) testURL testCredRequest (testNowFn 3).

Definition freshCache : Grant :=
  mkGrant (Some testGrant) (time.Unix 1 0) testURL testCredRequest (testNowFn 1).

(** A world whose server answers every POST with [resp]. *)
Definition worldAnswering (resp : http.Response) : World :=
  mkWorld (clockFrom 0) (serverAnswering resp).

Definition serverError : http.Response :=
  http.mkResponse 500 "500 Internal Server Error" "server error".

Definition emptyObject : http.Response := http.mkResponse 200 "200 OK" "{}".

(** A request whose grant type is not the constant. *)
Definition passwordRequest : CredentialsRequest :=
  {| ClientID := "joe-blow-id";
     ClientSecret := "joe-blow-secret";
     Audience := "https://api.blowcorp.co/";
     GrantType := "password" |}.

Definition passwordGrant : Grant := NewGrant testURL passwordRequest.

(** ** The handler of the test server *)

(** The keys of a [CredentialsRequest], by its tags. *)
Definition CredentialsRequest_keys : list string :=
  [ "client_id"; "client_secret"; "audience"; "grant_type" ].

(** [var request CredentialsRequest]: the zero value. *)
Definition CredentialsRequest_zero : CredentialsRequest :=
  mkCredentialsRequest "" "" "" "".

(** Storing one member of a JSON object in a [CredentialsRequest]. *)
Definition CredentialsRequest_store
    (acc : CredentialsRequest * option json.error) (kv : string * json.value)
  : CredentialsRequest * option json.error :=
  let '(c, saved) := acc in
  let '(k, v) := kv in
  match json.findField CredentialsRequest_keys k with
  | None => acc
  | Some f =>
      if String.eqb f "client_id" then
        let '(x, sv) := json.storeString f v (ClientID c) saved in
        (mkCredentialsRequest x (ClientSecret c) (Audience c) (GrantType c), sv)
      else if String.eqb f "client_secret" then
        let '(x, sv) := json.storeString f v (ClientSecret c) saved in
        (mkCredentialsRequest (ClientID c) x (Audience c) (GrantType c), sv)
      else if String.eqb f "audience" then
        let '(x, sv) := json.storeString f v (Audience c) saved in
        (mkCredentialsRequest (ClientID c) (ClientSecret c) x (GrantType c), sv)
      else
        let '(x, sv) := json.storeString f v (GrantType c) saved in
        (mkCredentialsRequest (ClientID c) (ClientSecret c) (Audience c) x, sv)
  end.

Definition CredentialsRequest_unmarshal (v : json.value)
    (into : CredentialsRequest) : CredentialsRequest * option json.error :=
  match v with
  | json.Object members =>
      List.fold_left CredentialsRequest_store members (into, None)
  | json.Null => (into, None)
  | _ => (into, Some (json.UnmarshalTypeError (json.kindName v) ""))
  end.

(** [json.NewDecoder(r.Body).Decode(&request)], as the handler of the
    test server runs it on the body it receives. *)
Definition Decode_CredentialsRequest (body : string) (into : CredentialsRequest)
  : CredentialsRequest * option json.error :=
  match json.readValue body with
  | json.Parsed v _ => CredentialsRequest_unmarshal v into
  | json.Malformed => (into, Some json.SyntaxError)
  | json.OutOfFuel => (into, Some json.SyntaxError)
  end.

(** * Specification

    The vocabulary the properties are stated in. *)

(** The POST a renewal of [g] issues. *)
Definition renewalRequest (g : Grant) : http.Request :=
  http.mkRequest (tokenURL g) "application/json"
    (fst (json.Marshal (CredentialsRequest_value (credRequest g)))).

(** What the network answers to the renewal of [g] in world [w]. *)
Definition answerTo (g : Grant) (w : World) : http.Response + string :=
  http.answer (net w) (http.posts (net w)) (renewalRequest g).

(** The world once the renewal of [g] has been posted. *)
Definition posted (g : Grant) (w : World) : World :=
  mkWorld (clock w)
    (http.mkNet (http.answer (net w))
       (http.posts (net w) ++ [renewalRequest g])%list).

(** The grant stored for a decoded response. *)
Definition renewed (d : clientCredsGrant) : clientCredsGrant :=
  mkClientCredsGrant (AccessToken d) (Scope d)
    (time.mul (ExpiresIn d) time.Second) (TokenType d).

(** The reading the time source of [g] gives in world [w]. *)
Definition currentTime (g : Grant) (w : World) : time.Time :=
  fst (nowFn g (clock w)).

(** The world once the time source of [g] has been read. *)
Definition afterReading (g : Grant) (w : World) : World :=
  mkWorld (snd (nowFn g (clock w))) (net w).

(** The cache of [g] is stale in world [w]. *)
Definition Stale (g : Grant) (w : World) : Prop :=
  grant g = None \/
  exists gr, grant g = Some gr /\
             time.Add (issuedAt g) (ExpiresIn gr) < currentTime g w.

(** The number of POSTs issued between two worlds. *)
Definition renewalCalls (w w' : World) : nat :=
  (List.length (http.posts (net w')) - List.length (http.posts (net w)))%nat.

Definition outcomeOf (r : outcome * Grant * World) : outcome := fst (fst r).
Definition grantOf (r : outcome * Grant * World) : Grant := snd (fst r).
Definition worldOf {A : Type} (r : A * World) : World := snd r.

(** The four ways a renewal fails. *)
Inductive RenewalFailure (g : Grant) (w : World) : error -> Prop :=
| SerializationFailure (e : json.error) :
    snd (json.Marshal (CredentialsRequest_value (credRequest g))) = Some e ->
    RenewalFailure g w (Wrap (JSONError e) "json encode cred request")
| TransportFailure (m : string) :
    answerTo g w = inr m ->
    RenewalFailure g w (Wrap (TransportError m) "cred http request")
| UnexpectedStatusFailure (resp : http.Response) :
    answerTo g w = inl resp ->
    http.StatusCode resp <> http.StatusOK ->
    RenewalFailure g w
      (Errorf ("response status: " ++ http.Status resp
               ++ ", body: " ++ http.Body resp))
| DecodeFailure (resp : http.Response) (d : clientCredsGrant) (e : json.error) :
    answerTo g w = inl resp ->
    http.StatusCode resp = http.StatusOK ->
    Decode_clientCredsGrant (http.Body resp) clientCredsGrant_zero = (d, Some e) ->
    RenewalFailure g w (Wrap (JSONError e) "decode grant from response").

(** A member whose key names no field of [clientCredsGrant]. *)
Definition unknownKey (kv : string * json.value) : Prop :=
  json.findField clientCredsGrant_keys (fst kv) = None.

(** A member that is not stored in field [f]. *)
Definition notFor (f : string) (kv : string * json.value) : Prop :=
  json.findField clientCredsGrant_keys (fst kv) <> Some f.

(** The coercion to valid UTF-8 that the encoder and the decoder both
    make: each byte that starts no well-formed sequence is replaced by
    U+FFFD, the rest is kept. *)
Fixpoint toValidLoop (fuel : nat) (s : string) : string :=
  match fuel with
  | O => EmptyString
  | S fuel' =>
      match s with
      | EmptyString => EmptyString
      | String _ _ =>
          let '(rr, size) := utf8.DecodeRune s in
          utf8.EncodeRune rr ++ toValidLoop fuel' (string_drop (Z.to_nat size) s)
      end
  end.

Definition toValidUTF8 (s : string) : string := toValidLoop (string_len s) s.

(** The text [Marshal] writes for a [CredentialsRequest]. *)
Definition payloadOf (c : CredentialsRequest) : string :=
  String "{"%char
    (json.encodeString "client_id" ++ String ":"%char
    (json.encodeString (ClientID c) ++ String ","%char
    (json.encodeString "client_secret" ++ String ":"%char
    (json.encodeString (ClientSecret c) ++ String ","%char
    (json.encodeString "audience" ++ String ":"%char
    (json.encodeString (Audience c) ++ String ","%char
    (json.encodeString "grant_type" ++ String ":"%char
    (json.encodeString (GrantType c) ++ "}")))))))).

(** The object a payload is read back as. *)
Definition objectOf (c : CredentialsRequest) : json.value :=
  json.Object
    [ ("client_id", json.Str (toValidUTF8 (ClientID c)));
      ("client_secret", json.Str (toValidUTF8 (ClientSecret c)));
      ("audience", json.Str (toValidUTF8 (Audience c)));
      ("grant_type", json.Str (toValidUTF8 (GrantType c))) ].

(** A reader is well behaved on [s] when it has enough fuel and leaves
    no more text than [s]. *)
Definition within {A : Type} (s : string) (x : json.parsed A) : Prop :=
  x <> json.OutOfFuel
  /\ forall (a : A) (r : string),
       x = json.Parsed a r -> (string_len r <= string_len s)%nat.

(** The value that the member [key] has in the JSON object [text]. *)
Definition memberOf (key : string) (text : string) : option json.value :=
  match json.readValue text with
  | json.Parsed (json.Object members) _ =>
      option_map snd (List.find (fun kv => String.eqb (fst kv) key) members)
  | _ => None
  end.

(** [n] calls of [GetAccessToken] in a row: the [Grant] and the world they
    leave. *)
Fixpoint calls (n : nat) (g : Grant) (w : World) : Grant * World :=
  match n with
  | O => (g, w)
  | S n' =>
      calls n' (grantOf (GetAccessToken g w)) (worldOf (GetAccessToken g w))
  end.

(** A time source that is a stopped clock. *)
Definition stoppedAt (t : time.Time) (f : time.Func) : Prop :=
  forall c : time.Clock, f c = (t, c).

(** A request whose four fields are valid UTF-8. *)
Definition validRequest (c : CredentialsRequest) : Prop :=
  utf8.ValidString (ClientID c) = true
  /\ utf8.ValidString (ClientSecret c) = true
  /\ utf8.ValidString (Audience c) = true
  /\ utf8.ValidString (GrantType c) = true.

(** A request with its fields coerced to valid UTF-8. *)
Definition coerced (c : CredentialsRequest) : CredentialsRequest :=
  mkCredentialsRequest (toValidUTF8 (ClientID c)) (toValidUTF8 (ClientSecret c))
    (toValidUTF8 (Audience c)) (toValidUTF8 (GrantType c)).




(** Responses of a server: one whose grant has expired before it was
    issued, and one whose [expires_in] is a string. *)
Definition negativeExpiry : http.Response :=
  http.mkResponse 200 "200 OK"
    (Bytes.text "{'access_token':'open-sesame','expires_in':-1}").


(** * Properties *)

(** ** Bytes, strings and UTF-8 *)

Lemma val_range (c : ascii) : 0 <= Bytes.val c < 256.
Proof.
  unfold Bytes.val. pose proof (N_ascii_bounded c). lia.
Qed.

Lemma of_val_val (c : ascii) : Bytes.of_val (Bytes.val c) = c.
Proof.
  unfold Bytes.of_val. pose proof (val_range c) as H.
  rewrite Z.mod_small by lia. unfold Bytes.val.
  rewrite N2Z.id. apply ascii_N_embedding.
Qed.

Lemma DecodeRune_ascii (c : ascii) (r : string) :
  Bytes.val c < 128 ->
  utf8.DecodeRune (String c r) = (Bytes.val c, 1)
  /\ utf8.EncodeRune (Bytes.val c) = String c EmptyString.
Proof.
  destruct c as [b0 b1 b2 b3 b4 b5 b6 b7].
  destruct b0, b1, b2, b3, b4, b5, b6, b7; intros H;
    first [ split; reflexivity | vm_compute in H; discriminate H ].
Qed.

Lemma string_len_drop (n : nat) (s : string) :
  (string_len (string_drop n s) <= string_len s - n)%nat.
Proof.
  unfold string_len. revert s. induction n as [| n IH]; intros s.
  - cbn [string_drop]. lia.
  - destruct s as [| c r]; cbn [string_drop String.length]; [lia |].
    apply IH.
Qed.

Lemma drop_take_app (n : nat) (s X : string) :
  (n <= string_len s)%nat ->
  string_drop n (string_take n s ++ X) = X.
Proof.
  unfold string_len. revert s. induction n as [| n IH]; intros s H.
  - reflexivity.
  - destruct s as [| c r]; cbn [String.length] in H; [lia |].
    cbn [string_take append string_drop]. apply IH. lia.
Qed.

(** A sequence of two bytes or more is read the same whatever follows its
    bytes. *)
Lemma DecodeRune_local (s X : string) (rn size : Z) :
  utf8.DecodeRune s = (rn, size) ->
  size <> 1 ->
  s <> EmptyString ->
  utf8.DecodeRune (string_take (Z.to_nat size) s ++ X) = (rn, size)
  /\ (Z.to_nat size <= string_len s)%nat /\ 2 <= size.
Proof.
  unfold utf8.DecodeRune.
  destruct s as [| c0 r0]; [congruence |].
  destruct (utf8.first (Bytes.val c0)) as [[[sz lo] hi] |] eqn:EF.
  2:{ intros H. injection H as <- <-. congruence. }
  destruct r0 as [| c1 r1]; [intros H; injection H as <- <-; congruence |].
  destruct ((Bytes.val c1 <? lo) || (hi <? Bytes.val c1)) eqn:E1;
    [intros H; injection H as <- <-; congruence |].
  destruct (sz <=? 2) eqn:S2.
  { intros H _ _. injection H as <- <-.
    change (Z.to_nat 2) with 2%nat. cbn [string_take append string_len String.length].
    rewrite EF, E1, S2. repeat split; lia. }
  destruct r1 as [| c2 r2]; [intros H; injection H as <- <-; congruence |].
  destruct ((Bytes.val c2 <? utf8.locb) || (utf8.hicb <? Bytes.val c2)) eqn:E2;
    [intros H; injection H as <- <-; congruence |].
  destruct (sz <=? 3) eqn:S3.
  { intros H _ _. injection H as <- <-.
    change (Z.to_nat 3) with 3%nat. cbn [string_take append string_len String.length].
    rewrite EF, E1, S2, E2, S3. repeat split; lia. }
  destruct r2 as [| c3 r3]; [intros H; injection H as <- <-; congruence |].
  destruct ((Bytes.val c3 <? utf8.locb) || (utf8.hicb <? Bytes.val c3)) eqn:E3;
    [intros H; injection H as <- <-; congruence |].
  intros H _ _. injection H as <- <-.
  change (Z.to_nat 4) with 4%nat. cbn [string_take append string_len String.length].
  rewrite EF, E1, S2, E2, S3, E3. repeat split; lia.
Qed.

Lemma DecodeRune_size (c : ascii) (r : string) :
  1 <= snd (utf8.DecodeRune (String c r)) <= 4.
Proof.
  unfold utf8.DecodeRune.
  destruct (utf8.first (Bytes.val c)) as [[[sz lo] hi] |]; [| cbn; lia].
  destruct r as [| c1 r1]; [cbn; lia |].
  destruct (_ || _); [cbn; lia |].
  destruct (sz <=? 2); [cbn; lia |].
  destruct r1 as [| c2 r2]; [cbn; lia |].
  destruct (_ || _); [cbn; lia |].
  destruct (sz <=? 3); [cbn; lia |].
  destruct r2 as [| c3 r3]; [cbn; lia |].
  destruct (_ || _); cbn; lia.
Qed.

Lemma append_assoc (a b c : string) : (a ++ b) ++ c = a ++ (b ++ c).
Proof.
  induction a as [| x a IH]; [reflexivity |].
  cbn [append]. rewrite IH. reflexivity.
Qed.

Lemma string_len_app (a b : string) :
  string_len (a ++ b) = (string_len a + string_len b)%nat.
Proof.
  unfold string_len. induction a as [| x a IH]; [reflexivity |].
  cbn [append String.length]. rewrite IH. reflexivity.
Qed.

Lemma DecodeRune_size1 (c : ascii) (r : string) (rn : Z) :
  128 <= Bytes.val c ->
  utf8.DecodeRune (String c r) = (rn, 1) ->
  rn = utf8.RuneError.
Proof.
  intros Hc. unfold utf8.DecodeRune.
  destruct (utf8.first (Bytes.val c)) as [[[sz lo] hi] |].
  2:{ replace (Bytes.val c <? utf8.RuneSelf) with false
        by (symmetry; apply Z.ltb_ge; unfold utf8.RuneSelf; lia).
      congruence. }
  destruct r as [| c1 r1]; [congruence |].
  destruct (_ || _); [congruence |].
  destruct (sz <=? 2); [congruence |].
  destruct r1 as [| c2 r2]; [congruence |].
  destruct (_ || _); [congruence |].
  destruct (sz <=? 3); [congruence |].
  destruct r2 as [| c3 r3]; [congruence |].
  destruct (_ || _); congruence.
Qed.

Lemma string_len_drop_ge (n : nat) (s : string) :
  (string_len s <= n + string_len (string_drop n s))%nat.
Proof.
  unfold string_len. revert s. induction n as [| n IH]; intros s.
  - cbn [string_drop]. lia.
  - destruct s as [| c r]; cbn [string_drop String.length]; [lia |].
    specialize (IH r). lia.
Qed.

Lemma string_len_take_drop (n : nat) (s : string) :
  (string_len (string_take n s) + string_len (string_drop n s))%nat
  = string_len s.
Proof.
  unfold string_len. revert s. induction n as [| n IH]; intros s.
  - reflexivity.
  - destruct s as [| c r]; cbn [string_take string_drop String.length];
      [reflexivity |].
    specialize (IH r). lia.
Qed.

Lemma string_len_String (c : ascii) (r : string) :
  string_len (String c r) = S (string_len r).
Proof. reflexivity. Qed.

(** Bits and arithmetic: a value shifted left and the bits below it add up,
    and masking the low bits is a remainder. *)
Lemma lor_shiftl (a b k : Z) :
  0 <= k -> 0 <= b < 2 ^ k ->
  Z.lor (Z.shiftl a k) b = a * 2 ^ k + b.
Proof.
  intros Hk Hb.
  assert (HL : Z.land (Z.shiftl a k) b = 0).
  { apply Z.bits_inj'. intros n Hn. rewrite Z.land_spec, Z.bits_0.
    destruct (Z.lt_ge_cases n k) as [H | H].
    - rewrite Z.shiftl_spec_low by lia. reflexivity.
    - destruct (Z.eq_dec b 0) as [-> | Hb0].
      + rewrite Z.bits_0. apply andb_false_r.
      + rewrite (Z.bits_above_log2 b n); [apply andb_false_r | lia |].
        apply Z.log2_lt_pow2; [lia |].
        apply Z.lt_le_trans with (2 ^ k); [lia |].
        apply Z.pow_le_mono_r; lia. }
  pose proof (Z.add_lor_land (Z.shiftl a k) b) as H.
  rewrite HL, Z.add_0_r in H. rewrite H, Z.shiftl_mul_pow2 by lia. reflexivity.
Qed.

Lemma land_low (x k : Z) : 0 <= k -> Z.land x (2 ^ k - 1) = x mod 2 ^ k.
Proof.
  intros Hk. rewrite <- Z.land_ones by lia. f_equal.
  rewrite Z.ones_equiv. lia.
Qed.

Lemma land63 (x : Z) : Z.land x 63 = x mod 64.
Proof. apply (land_low x 6). lia. Qed.

Lemma land31 (x : Z) : Z.land x 31 = x mod 32.
Proof. apply (land_low x 5). lia. Qed.

Lemma land15 (x : Z) : Z.land x 15 = x mod 16.
Proof. apply (land_low x 4). lia. Qed.

Lemma land7 (x : Z) : Z.land x 7 = x mod 8.
Proof. apply (land_low x 3). lia. Qed.

Lemma lor192 (x : Z) : 0 <= x < 32 -> Z.lor 192 x = 192 + x.
Proof. intros H. apply (lor_shiftl 6 x 5); lia. Qed.

Lemma lor224 (x : Z) : 0 <= x < 16 -> Z.lor 224 x = 224 + x.
Proof. intros H. apply (lor_shiftl 14 x 4); lia. Qed.

Lemma lor240 (x : Z) : 0 <= x < 8 -> Z.lor 240 x = 240 + x.
Proof. intros H. apply (lor_shiftl 30 x 3); lia. Qed.

Lemma lor128 (x : Z) : 0 <= x < 64 -> Z.lor 128 x = 128 + x.
Proof. intros H. apply (lor_shiftl 2 x 6); lia. Qed.

Lemma lor_add (x b k : Z) :
  0 <= k -> x mod 2 ^ k = 0 -> 0 <= b < 2 ^ k -> Z.lor x b = x + b.
Proof.
  intros Hk Hx Hb.
  assert (H2 : 0 < 2 ^ k) by (apply Z.pow_pos_nonneg; lia).
  rewrite (Z.div_mod x (2 ^ k)) at 1 2 by lia.
  rewrite Hx, Z.add_0_r, (Z.mul_comm (2 ^ k)).
  rewrite <- Z.shiftl_mul_pow2 by lia. rewrite lor_shiftl by lia.
  rewrite Z.shiftl_mul_pow2 by lia. reflexivity.
Qed.

Ltac euclid := Z.to_euclidean_division_equations; lia.

(** The runes that [DecodeRune] computes, in arithmetic. *)
Lemma rune2_eq (p0 b1 : Z) :
  Z.lor (Z.shiftl (Z.land p0 31) 6) (Z.land b1 63)
  = (p0 mod 32) * 64 + b1 mod 64.
Proof.
  rewrite land31, land63, Z.shiftl_mul_pow2 by lia.
  rewrite (lor_add _ (b1 mod 64) 6) by (try lia; euclid). lia.
Qed.

Lemma rune3_eq (p0 b1 b2 : Z) :
  Z.lor (Z.lor (Z.shiftl (Z.land p0 15) 12) (Z.shiftl (Z.land b1 63) 6))
    (Z.land b2 63)
  = (p0 mod 16) * 4096 + (b1 mod 64) * 64 + b2 mod 64.
Proof.
  rewrite land15, !land63, !Z.shiftl_mul_pow2 by lia.
  rewrite (lor_add (p0 mod 16 * 2 ^ 12) (b1 mod 64 * 2 ^ 6) 12)
    by (try lia; euclid).
  rewrite (lor_add _ (b2 mod 64) 6) by (try lia; euclid). lia.
Qed.

Lemma rune4_eq (p0 b1 b2 b3 : Z) :
  Z.lor (Z.lor (Z.lor (Z.shiftl (Z.land p0 7) 18) (Z.shiftl (Z.land b1 63) 12))
           (Z.shiftl (Z.land b2 63) 6))
    (Z.land b3 63)
  = (p0 mod 8) * 262144 + (b1 mod 64) * 4096 + (b2 mod 64) * 64 + b3 mod 64.
Proof.
  rewrite land7, !land63, !Z.shiftl_mul_pow2 by lia.
  rewrite (lor_add (p0 mod 8 * 2 ^ 18) (b1 mod 64 * 2 ^ 12) 18)
    by (try lia; euclid).
  rewrite (lor_add _ (b2 mod 64 * 2 ^ 6) 12) by (try lia; euclid).
  rewrite (lor_add _ (b3 mod 64) 6) by (try lia; euclid). lia.
Qed.

Ltac decide_tests :=
  repeat match goal with
         | |- context [?a <? ?b] => destruct (Z.ltb_spec a b); try lia
         | |- context [?a <=? ?b] => destruct (Z.leb_spec a b); try lia
         | |- context [?a =? ?b] => destruct (Z.eqb_spec a b); try lia
         end;
  cbn [orb andb negb].

(** The bytes that [EncodeRune] writes, in arithmetic. *)
Lemma EncodeRune2 (r : Z) :
  128 <= r <= 2047 ->
  utf8.EncodeRune r
  = utf8.byte1 (192 + r / 64) ++ utf8.byte1 (128 + r mod 64).
Proof.
  intros H. unfold utf8.EncodeRune, utf8.MaxRune. decide_tests.
  unfold utf8.encode. decide_tests.
  rewrite Z.shiftr_div_pow2, land63 by lia.
  rewrite lor192, lor128 by euclid. reflexivity.
Qed.

Lemma EncodeRune3 (r : Z) :
  2048 <= r <= 65535 ->
  r < 55296 \/ 57343 < r ->
  utf8.EncodeRune r
  = utf8.byte1 (224 + r / 4096)
    ++ utf8.byte1 (128 + (r / 64) mod 64)
    ++ utf8.byte1 (128 + r mod 64).
Proof.
  intros H H'. unfold utf8.EncodeRune, utf8.MaxRune.
  decide_tests; unfold utf8.encode; decide_tests;
    rewrite !Z.shiftr_div_pow2, !land63 by lia;
    rewrite lor224, !lor128 by euclid; reflexivity.
Qed.

Lemma EncodeRune4 (r : Z) :
  65536 <= r <= 1114111 ->
  utf8.EncodeRune r
  = utf8.byte1 (240 + r / 262144)
    ++ utf8.byte1 (128 + (r / 4096) mod 64)
    ++ utf8.byte1 (128 + (r / 64) mod 64)
    ++ utf8.byte1 (128 + r mod 64).
Proof.
  intros H. unfold utf8.EncodeRune, utf8.MaxRune. decide_tests.
  unfold utf8.encode. decide_tests.
  rewrite !Z.shiftr_div_pow2, !land63 by lia.
  rewrite lor240, !lor128 by euclid. reflexivity.
Qed.

(** Table [first], read back: the leading bytes of the sequences of each
    length and the second bytes they accept. *)
Lemma first_spec (p0 sz lo hi : Z) :
  utf8.first p0 = Some (sz, lo, hi) ->
  128 <= lo /\ hi <= 191
  /\ ((sz = 2 /\ 194 <= p0 <= 223)
      \/ (sz = 3 /\ 224 <= p0 <= 239
          /\ (p0 = 224 -> 160 <= lo) /\ (p0 = 237 -> hi <= 159))
      \/ (sz = 4 /\ 240 <= p0 <= 244
          /\ (p0 = 240 -> 144 <= lo) /\ (p0 = 244 -> hi <= 143))).
Proof.
  unfold utf8.first.
  repeat match goal with
         | |- context [?a <? ?b] => destruct (Z.ltb_spec a b)
         | |- context [?a <=? ?b] => destruct (Z.leb_spec a b)
         | |- context [?a =? ?b] => destruct (Z.eqb_spec a b)
         end;
    intros E; try discriminate E; injection E as <- <- <-; lia.
Qed.

Lemma byte1_val (c : ascii) (z : Z) :
  z = Bytes.val c -> utf8.byte1 z = String c EmptyString.
Proof. intros ->. unfold utf8.byte1. rewrite of_val_val. reflexivity. Qed.

Lemma orb_range (b lo hi : Z) :
  (b <? lo) || (hi <? b) = false -> lo <= b <= hi.
Proof.
  intros H. apply orb_false_elim in H. destruct H as [H1 H2].
  apply Z.ltb_ge in H1, H2. lia.
Qed.

(** A well-formed sequence of two bytes or more is the encoding of the
    rune it is decoded to. *)
Lemma EncodeRune_DecodeRune (s : string) (rn size : Z) :
  utf8.DecodeRune s = (rn, size) ->
  size <> 1 ->
  s <> EmptyString ->
  utf8.EncodeRune rn = string_take (Z.to_nat size) s.
Proof.
  destruct s as [| c0 r0]; [congruence |].
  unfold utf8.DecodeRune. cbv zeta.
  pose proof (val_range c0) as R0.
  destruct (utf8.first (Bytes.val c0)) as [[[sz lo] hi] |] eqn:EF.
  2:{ intros H. injection H as <- <-. congruence. }
  apply first_spec in EF. destruct EF as [Hlo [Hhi EF]].
  destruct r0 as [| c1 r1]; [intros H; injection H as <- <-; congruence |].
  pose proof (val_range c1) as R1.
  destruct ((Bytes.val c1 <? lo) || (hi <? Bytes.val c1)) eqn:E1;
    [intros H; injection H as <- <-; congruence |].
  apply orb_range in E1.
  destruct (Z.leb_spec sz 2) as [S2 | S2].
  { intros H _ _. apply pair_equal_spec in H. destruct H as [<- <-].
    rewrite rune2_eq, EncodeRune2 by euclid.
    change (Z.to_nat 2) with 2%nat. cbn [string_take].
    rewrite (byte1_val c0), (byte1_val c1) by euclid. reflexivity. }
  destruct r1 as [| c2 r2]; [intros H; injection H as <- <-; congruence |].
  pose proof (val_range c2) as R2.
  destruct ((Bytes.val c2 <? utf8.locb) || (utf8.hicb <? Bytes.val c2)) eqn:E2;
    [intros H; injection H as <- <-; congruence |].
  apply orb_range in E2. unfold utf8.locb, utf8.hicb in E2.
  destruct (Z.leb_spec sz 3) as [S3 | S3].
  { intros H _ _. apply pair_equal_spec in H. destruct H as [<- <-].
    rewrite rune3_eq, EncodeRune3 by euclid.
    change (Z.to_nat 3) with 3%nat. cbn [string_take].
    rewrite (byte1_val c0), (byte1_val c1), (byte1_val c2) by euclid.
    reflexivity. }
  destruct r2 as [| c3 r3]; [intros H; injection H as <- <-; congruence |].
  pose proof (val_range c3) as R3.
  destruct ((Bytes.val c3 <? utf8.locb) || (utf8.hicb <? Bytes.val c3)) eqn:E3;
    [intros H; injection H as <- <-; congruence |].
  apply orb_range in E3. unfold utf8.locb, utf8.hicb in E3.
  intros H _ _. apply pair_equal_spec in H. destruct H as [<- <-].
  rewrite rune4_eq, EncodeRune4 by euclid.
  change (Z.to_nat 4) with 4%nat. cbn [string_take].
  rewrite (byte1_val c0), (byte1_val c1), (byte1_val c2), (byte1_val c3)
    by euclid.
  reflexivity.
Qed.

Lemma take_drop (n : nat) (s : string) :
  string_take n s ++ string_drop n s = s.
Proof.
  revert s. induction n as [| n IH]; intros s; [reflexivity |].
  destruct s as [| c r]; [reflexivity |].
  cbn [string_take string_drop append]. rewrite IH. reflexivity.
Qed.

(** ** Writing a string and reading it back *)

Lemma escape_roundtrip (c : ascii) (fuel : nat) (X : string) :
  Bytes.val c < 128 ->
  json.htmlSafeSet (Bytes.val c) = false ->
  json.parseStringLoop (S fuel)
    (String Bytes.backslash (json.escapeByte (Bytes.val c) ++ X))
  = json.prepend (String c EmptyString) (json.parseStringLoop fuel X).
Proof.
  destruct c as [b0 b1 b2 b3 b4 b5 b6 b7].
  destruct b0, b1, b2, b3, b4, b5, b6, b7; intros H1 H2;
    first [ reflexivity
          | vm_compute in H2; discriminate H2
          | vm_compute in H1; discriminate H1 ].
Qed.

Lemma safe_step (c : ascii) (fuel : nat) (X : string) :
  json.htmlSafeSet (Bytes.val c) = true ->
  json.parseStringLoop (S fuel) (String c X)
  = json.prepend (String c EmptyString) (json.parseStringLoop fuel X).
Proof.
  destruct c as [b0 b1 b2 b3 b4 b5 b6 b7].
  destruct b0, b1, b2, b3, b4, b5, b6, b7; intros H;
    first [ reflexivity | vm_compute in H; discriminate H ].
Qed.

Lemma copy_step (c : ascii) (r X : string) (rn size : Z) (fuel : nat) :
  128 <= Bytes.val c ->
  utf8.DecodeRune (String c r) = (rn, size) ->
  size <> 1 ->
  json.parseStringLoop (S fuel)
    (string_take (Z.to_nat size) (String c r) ++ X)
  = json.prepend (utf8.EncodeRune rn) (json.parseStringLoop fuel X).
Proof.
  intros Hc HD Hs.
  destruct (DecodeRune_local (String c r) X rn size HD Hs) as [HL [Hlen H2]];
    [discriminate |].
  pose proof (drop_take_app (Z.to_nat size) (String c r) X Hlen) as HDT.
  destruct (Z.to_nat size) as [| k] eqn:EK; [lia |].
  cbn [string_take append] in *.
  cbn [json.parseStringLoop].
  pose proof (val_range c) as HR.
  replace (Bytes.val c =? 34) with false by (symmetry; apply Z.eqb_neq; lia).
  replace (Bytes.val c =? 92) with false by (symmetry; apply Z.eqb_neq; lia).
  replace (Bytes.val c <? 32) with false by (symmetry; apply Z.ltb_ge; lia).
  replace (Bytes.val c <? utf8.RuneSelf) with false
    by (symmetry; apply Z.ltb_ge; unfold utf8.RuneSelf; lia).
  rewrite HL, EK, HDT. reflexivity.
Qed.

Lemma prepend_Parsed (p a X : string) :
  json.prepend p (json.Parsed a X) = json.Parsed (p ++ a) X.
Proof. reflexivity. Qed.

(** Reading back a string that was written gives the string, coerced to
    valid UTF-8. *)
Lemma parse_encode_loop (n : nat) :
  forall s : string,
    (string_len s <= n)%nat ->
    forall (k : nat) (X : string),
      json.parseStringLoop (S (n + k))
        (json.encodeStringLoop n s ++ String Bytes.dquote X)
      = json.Parsed (toValidLoop n s) X.
Proof.
  induction n as [| n IH]; intros s Hlen k X.
  - destruct s; [reflexivity |].
    unfold string_len in Hlen. cbn [String.length] in Hlen. lia.
  - destruct s as [| c r]; [reflexivity |].
    assert (Hr : (string_len r <= n)%nat).
    { unfold string_len in *. cbn [String.length] in Hlen. lia. }
    cbn [json.encodeStringLoop toValidLoop].
    destruct (Bytes.val c <? utf8.RuneSelf) eqn:EA.
    + apply Z.ltb_lt in EA. unfold utf8.RuneSelf in EA.
      destruct (DecodeRune_ascii c r EA) as [HD HE].
      rewrite HD, HE. change (Z.to_nat 1) with 1%nat. cbn [string_drop].
      destruct (json.htmlSafeSet (Bytes.val c)) eqn:ES.
      * cbn [append]. change (S n + k)%nat with (S (n + k)).
        rewrite (safe_step c _ _ ES), (IH r Hr). reflexivity.
      * cbn [append]. rewrite append_assoc.
        change (S n + k)%nat with (S (n + k)).
        rewrite (escape_roundtrip c _ _ EA ES), (IH r Hr). reflexivity.
    + apply Z.ltb_ge in EA. unfold utf8.RuneSelf in EA.
      pose proof (DecodeRune_size c r) as Hsz.
      destruct (utf8.DecodeRune (String c r)) as [rn size] eqn:ED.
      cbn [snd] in Hsz. destruct Hsz as [Hsz _].
      assert (Hd : (string_len (string_drop (Z.to_nat size) (String c r)) <= n)%nat).
      { pose proof (string_len_drop (Z.to_nat size) (String c r)) as H.
        unfold string_len in *. cbn [String.length] in H, Hlen. lia. }
      change (S n + k)%nat with (S (n + k)).
      destruct ((rn =? utf8.RuneError) && (size =? 1)) eqn:E1.
      * apply andb_prop in E1. destruct E1 as [E1 E2].
        apply Z.eqb_eq in E1, E2. subst rn size.
        change (Z.to_nat 1) with 1%nat. cbn [string_drop].
        cbn [append].
        transitivity (json.prepend (utf8.EncodeRune utf8.RuneError)
                        (json.parseStringLoop (S (n + k))
                           (json.encodeStringLoop n r ++ String Bytes.dquote X)));
          [reflexivity |].
        rewrite (IH r Hr). reflexivity.
      * destruct ((rn =? 8232) || (rn =? 8233)) eqn:E2.
        -- cbn [append].
           transitivity (json.prepend (utf8.EncodeRune rn)
                        (json.parseStringLoop (S (n + k))
                           (json.encodeStringLoop n
                              (string_drop (Z.to_nat size) (String c r))
                            ++ String Bytes.dquote X))).
           { apply orb_prop in E2.
             destruct E2 as [E2 | E2]; apply Z.eqb_eq in E2; subst rn;
               reflexivity. }
           rewrite (IH _ Hd). reflexivity.
        -- rewrite append_assoc.
           assert (Hs : size <> 1).
           { intros ->. rewrite (DecodeRune_size1 c r rn EA ED) in E1.
             discriminate E1. }
           rewrite (copy_step c r _ rn size _ EA ED Hs), (IH _ Hd).
           reflexivity.
Qed.

(** Writing a string never makes it shorter. *)
Lemma encodeStringLoop_len (n : nat) :
  forall s : string,
    (string_len s <= n)%nat ->
    (string_len s <= string_len (json.encodeStringLoop n s))%nat.
Proof.
  induction n as [| n IH]; intros s Hlen.
  - destruct s; [cbn; lia |].
    unfold string_len in Hlen. cbn [String.length] in Hlen. lia.
  - destruct s as [| c r]; [cbn; lia |].
    assert (Hr : (string_len r <= n)%nat).
    { unfold string_len in *. cbn [String.length] in Hlen. lia. }
    cbn [json.encodeStringLoop].
    destruct (Bytes.val c <? utf8.RuneSelf).
    + specialize (IH r Hr).
      destruct (json.htmlSafeSet (Bytes.val c)).
      * unfold string_len in *. cbn [String.length]. lia.
      * change (string_len (String ?a ?b)) with (S (string_len b)).
        rewrite string_len_app. lia.
    + pose proof (DecodeRune_size c r) as Hsz.
      destruct (utf8.DecodeRune (String c r)) as [rn size].
      cbn [snd] in Hsz.
      pose proof (string_len_drop (Z.to_nat size) (String c r)) as Hd.
      pose proof (string_len_drop_ge (Z.to_nat size) (String c r)) as Hg.
      pose proof (string_len_take_drop (Z.to_nat size) (String c r)) as Ht.
      assert (Hd' : (string_len (string_drop (Z.to_nat size) (String c r)) <= n)%nat).
      { change (string_len (String c r)) with (S (string_len r)) in Hd. lia. }
      destruct ((rn =? utf8.RuneError) && (size =? 1)) eqn:E1.
      * specialize (IH r Hr).
        change (string_len (String ?a ?b)) with (S (string_len b)).
        rewrite string_len_app. lia.
      * specialize (IH _ Hd').
        destruct ((rn =? 8232) || (rn =? 8233)) eqn:E2.
        -- apply orb_prop in E2.
           unfold string_len in *. cbn [append String.length] in *. lia.
        -- rewrite string_len_app. lia.
Qed.

Lemma parseString_encodeString (s X : string) :
  json.parseString (json.encodeStringLoop (string_len s) s
                    ++ String Bytes.dquote X)
  = json.Parsed (toValidUTF8 s) X.
Proof.
  unfold json.parseString, toValidUTF8.
  pose proof (encodeStringLoop_len (string_len s) s (le_n _)) as H.
  rewrite string_len_app.
  change (string_len (String Bytes.dquote X)) with (S (string_len X)).
  replace (S (string_len (json.encodeStringLoop (string_len s) s)
              + S (string_len X)))
    with (S (string_len s
             + (string_len (json.encodeStringLoop (string_len s) s)
                - string_len s + S (string_len X)))) by lia.
  apply parse_encode_loop. apply le_n.
Qed.

Lemma encodeString_app (s X : string) :
  json.encodeString s ++ X
  = String Bytes.dquote
      (json.encodeStringLoop (string_len s) s ++ String Bytes.dquote X).
Proof.
  unfold json.encodeString. cbn [append]. rewrite append_assoc. reflexivity.
Qed.

Lemma parseValue_string (f : nat) (s X : string) :
  json.parseValue (S f) (json.encodeString s ++ X)
  = json.Parsed (json.Str (toValidUTF8 s)) X.
Proof.
  rewrite encodeString_app.
  change (json.parseValue (S f) (String Bytes.dquote ?R))
    with (json.pmap json.Str (json.parseString R)).
  rewrite parseString_encodeString. reflexivity.
Qed.

Lemma parseMembers_key (f : nat) (k R : string) :
  json.parseMembers (S f) (json.encodeString k ++ String ":"%char R)
  = match json.parseValue f R with
    | json.Parsed v r3 =>
        match json.skipSpace r3 with
        | EmptyString => json.Malformed
        | String c3 r4 =>
            if Bytes.eqb c3 ","%char then
              json.pmap (cons (toValidUTF8 k, v)) (json.parseMembers f r4)
            else if Bytes.eqb c3 "}"%char then
              json.Parsed [(toValidUTF8 k, v)] r4
            else json.Malformed
        end
    | json.Malformed => json.Malformed
    | json.OutOfFuel => json.OutOfFuel
    end.
Proof.
  rewrite encodeString_app.
  cbn [json.parseMembers json.skipSpace].
  change (json.isSpace Bytes.dquote) with false. cbn iota.
  change (Bytes.eqb Bytes.dquote Bytes.dquote) with true. cbn iota.
  rewrite parseString_encodeString.
  reflexivity.
Qed.

Lemma parseMembers_member (f : nat) (k v R : string) :
  json.parseMembers (S (S f))
    (json.encodeString k ++ String ":"%char
       (json.encodeString v ++ String ","%char R))
  = json.pmap (cons (toValidUTF8 k, json.Str (toValidUTF8 v)))
      (json.parseMembers (S f) R).
Proof.
  rewrite parseMembers_key, parseValue_string. reflexivity.
Qed.

Lemma parseMembers_last (f : nat) (k v R : string) :
  json.parseMembers (S (S f))
    (json.encodeString k ++ String ":"%char
       (json.encodeString v ++ String "}"%char R))
  = json.Parsed [(toValidUTF8 k, json.Str (toValidUTF8 v))] R.
Proof.
  rewrite parseMembers_key, parseValue_string. reflexivity.
Qed.

Lemma parseValue_object (f : nat) (k R : string) :
  json.parseValue (S f) (String "{"%char (json.encodeString k ++ R))
  = json.pmap json.Object (json.parseMembers f (json.encodeString k ++ R)).
Proof.
  rewrite encodeString_app. reflexivity.
Qed.

Lemma Marshal_CredentialsRequest (c : CredentialsRequest) :
  json.Marshal (CredentialsRequest_value c) = (payloadOf c, None).
Proof.
  unfold json.Marshal, CredentialsRequest_value, payloadOf.
  cbn [json.encodeValue].
  repeat first [rewrite append_assoc | progress cbn [append]]. reflexivity.
Qed.

Lemma parseValue_payload (c : CredentialsRequest) (f : nat) :
  (5 <= f)%nat ->
  json.parseValue (S f) (payloadOf c) = json.Parsed (objectOf c) "".
Proof.
  intros Hf.
  destruct f as [| [| [| [| [| f]]]]]; try lia.
  unfold payloadOf.
  rewrite parseValue_object, !parseMembers_member, parseMembers_last.
  reflexivity.
Qed.

Lemma string_len_payload (c : CredentialsRequest) :
  (3 <= string_len (payloadOf c))%nat.
Proof.
  unfold payloadOf. rewrite encodeString_app.
  unfold string_len. cbn [String.length]. 
  assert (H : forall X : string, (1 <= String.length (X ++ String Bytes.dquote ":"))%nat).
  { intros X. pose proof (string_len_app X (String Bytes.dquote ":")) as H.
    unfold string_len in H. rewrite H. cbn [String.length]. lia. }
  match goal with |- (3 <= S (S (String.length (?X ++ String Bytes.dquote ?Y))))%nat =>
    pose proof (string_len_app X (String Bytes.dquote Y)) as HL end.
  unfold string_len in HL. rewrite HL. cbn [String.length]. lia.
Qed.

Lemma readValue_payload (c : CredentialsRequest) :
  json.readValue (payloadOf c) = json.Parsed (objectOf c) "".
Proof.
  unfold json.readValue, json.enough.
  apply parseValue_payload. pose proof (string_len_payload c). lia.
Qed.

(** The loops that write and that coerce a string do not depend on their
    fuel, once it covers the length of the string. *)
Lemma encodeStringLoop_fuel (n : nat) :
  forall (s : string) (m : nat),
    (string_len s <= n)%nat -> (string_len s <= m)%nat ->
    json.encodeStringLoop n s = json.encodeStringLoop m s.
Proof.
  induction n as [| n IH]; intros s m Hn Hm.
  - destruct s; [destruct m; reflexivity |].
    rewrite string_len_String in Hn. lia.
  - destruct s as [| c r]; [destruct m; reflexivity |].
    rewrite string_len_String in Hn, Hm.
    destruct m as [| m]; [lia |].
    cbn [json.encodeStringLoop].
    pose proof (DecodeRune_size c r) as Hsz.
    pose proof (string_len_drop (Z.to_nat (snd (utf8.DecodeRune (String c r))))
                  (String c r)) as Hd.
    rewrite string_len_String in Hd.
    destruct (utf8.DecodeRune (String c r)) as [rn size]. cbn [snd] in *.
    rewrite (IH r m) by lia.
    rewrite (IH (string_drop (Z.to_nat size) (String c r)) m) by lia.
    reflexivity.
Qed.

Lemma toValidLoop_fuel (n : nat) :
  forall (s : string) (m : nat),
    (string_len s <= n)%nat -> (string_len s <= m)%nat ->
    toValidLoop n s = toValidLoop m s.
Proof.
  induction n as [| n IH]; intros s m Hn Hm.
  - destruct s; [destruct m; reflexivity |].
    rewrite string_len_String in Hn. lia.
  - destruct s as [| c r]; [destruct m; reflexivity |].
    rewrite string_len_String in Hn, Hm.
    destruct m as [| m]; [lia |].
    cbn [toValidLoop].
    pose proof (DecodeRune_size c r) as Hsz.
    pose proof (string_len_drop (Z.to_nat (snd (utf8.DecodeRune (String c r))))
                  (String c r)) as Hd.
    rewrite string_len_String in Hd.
    destruct (utf8.DecodeRune (String c r)) as [rn size]. cbn [snd] in *.
    rewrite (IH (string_drop (Z.to_nat size) (String c r)) m) by lia.
    reflexivity.
Qed.

Lemma toValidLoop_valid (n : nat) :
  forall s : string,
    (string_len s <= n)%nat ->
    utf8.ValidLoop n s = true ->
    toValidLoop n s = s.
Proof.
  induction n as [| n IH]; intros s Hlen HV.
  - destruct s; [reflexivity |]. rewrite string_len_String in Hlen. lia.
  - destruct s as [| c r]; [reflexivity |].
    rewrite string_len_String in Hlen.
    cbn [utf8.ValidLoop toValidLoop] in *.
    pose proof (DecodeRune_size c r) as Hsz.
    pose proof (string_len_drop (Z.to_nat (snd (utf8.DecodeRune (String c r))))
                  (String c r)) as Hd.
    rewrite string_len_String in Hd.
    destruct (utf8.DecodeRune (String c r)) as [rn size] eqn:ED.
    cbn [snd] in *.
    destruct ((rn =? utf8.RuneError) && (size =? 1)) eqn:E1;
      [discriminate HV |].
    assert (HE : utf8.EncodeRune rn = string_take (Z.to_nat size) (String c r)).
    { destruct (Z.eq_dec size 1) as [-> | Hs].
      - destruct (Z.lt_ge_cases (Bytes.val c) 128) as [Hc | Hc].
        + destruct (DecodeRune_ascii c r Hc) as [HD HE].
          rewrite HD in ED. injection ED as <-. exact HE.
        + rewrite (DecodeRune_size1 c r rn Hc ED) in E1. discriminate E1.
      - apply (EncodeRune_DecodeRune _ _ _ ED Hs). discriminate. }
    rewrite HE, IH; [apply take_drop | lia | exact HV].
Qed.

(** Coercing a string of valid UTF-8 leaves it as it is. *)
Lemma toValidUTF8_valid (s : string) :
  utf8.ValidString s = true -> toValidUTF8 s = s.
Proof. apply toValidLoop_valid. apply le_n. Qed.

(** ** The reader has fuel for every text *)

Lemma skipSpace_len (s : string) :
  (string_len (json.skipSpace s) <= string_len s)%nat.
Proof.
  unfold string_len. induction s as [| c r IH]; [apply le_n |].
  cbn [json.skipSpace]. destruct (json.isSpace c); cbn [String.length]; lia.
Qed.

Ltac drop_facts :=
  repeat match goal with
  | H : context [string_drop ?n ?Y] |- _ =>
      lazymatch goal with
      | _ : (string_len (string_drop n Y) <= string_len Y - n)%nat |- _ => fail
      | _ => pose proof (string_len_drop n Y)
      end
  end.

Lemma prepend_inv (p : string) (x : json.parsed string) (a r : string) :
  json.prepend p x = json.Parsed a r ->
  exists a', x = json.Parsed a' r.
Proof.
  destruct x; cbn; intros H; try discriminate H.
  injection H as _ <-. eexists. reflexivity.
Qed.

Lemma parseStringLoop_len (fuel : nat) :
  forall (s a r : string),
    json.parseStringLoop fuel s = json.Parsed a r ->
    (string_len r < string_len s)%nat.
Proof.
  induction fuel as [| fuel IH]; intros s a r H; [discriminate H |].
  cbn [json.parseStringLoop] in H.
  destruct s as [| c t]; [discriminate H |].
  rewrite string_len_String.
  repeat match type of H with
         | context [if ?b then _ else _] => destruct b
         | context [match ?t with EmptyString => _ | String _ _ => _ end] =>
             destruct t
         | context [let '(_, _) := ?p in _] => destruct p
         end;
    try discriminate H;
    try (injection H as _ <-; lia);
    apply prepend_inv in H; destruct H as [a' H]; apply IH in H;
    drop_facts; rewrite ?string_len_String in *; lia.
Qed.

Lemma prepend_OutOfFuel (p : string) (x : json.parsed string) :
  json.prepend p x = json.OutOfFuel -> x = json.OutOfFuel.
Proof. destruct x; cbn; intros H; first [discriminate H | reflexivity]. Qed.

(** The string reader has fuel for every text. *)
Lemma parseStringLoop_fuel (fuel : nat) :
  forall s : string,
    (string_len s < fuel)%nat ->
    json.parseStringLoop fuel s <> json.OutOfFuel.
Proof.
  induction fuel as [| fuel IH]; intros s Hlen H; [lia |].
  cbn [json.parseStringLoop] in H.
  destruct s as [| c t]; [discriminate H |].
  rewrite string_len_String in Hlen.
  pose proof (DecodeRune_size c t) as Hsz.
  repeat match type of H with
         | context [if ?b then _ else _] => destruct b
         | context [match ?t with EmptyString => _ | String _ _ => _ end] =>
             destruct t
         | context [let '(_, _) := ?p in _] => destruct p
         end;
    try discriminate H;
    apply prepend_OutOfFuel in H; revert H; apply IH;
    cbn [snd] in Hsz;
    repeat match goal with
    | |- context [string_drop ?n ?Y] =>
        lazymatch goal with
        | _ : (string_len (string_drop n Y) <= string_len Y - n)%nat |- _ => fail
        | _ => pose proof (string_len_drop n Y)
        end
    end;
    rewrite ?string_len_String in *; lia.
Qed.

Lemma parseString_fuel (s : string) : json.parseString s <> json.OutOfFuel.
Proof. apply parseStringLoop_fuel. lia. Qed.

Lemma parseString_len (s a r : string) :
  json.parseString s = json.Parsed a r -> (string_len r < string_len s)%nat.
Proof. apply parseStringLoop_len. Qed.

Lemma within_Parsed {A : Type} (s : string) (a : A) (r : string) :
  (string_len r <= string_len s)%nat -> within s (json.Parsed a r).
Proof.
  intros H. split; [discriminate |]. intros a' r' E. injection E as _ <-.
  exact H.
Qed.

Lemma within_Malformed {A : Type} (s : string) :
  within s (@json.Malformed A).
Proof. split; discriminate. Qed.

Lemma within_weaken {A : Type} (s s' : string) (x : json.parsed A) :
  within s' x -> (string_len s' <= string_len s)%nat -> within s x.
Proof.
  intros [H1 H2] H. split; [exact H1 |]. intros a r E.
  specialize (H2 a r E). lia.
Qed.

Lemma within_pbind {A B : Type} (s : string) (x : json.parsed A)
    (k : A -> string -> json.parsed B) :
  within s x ->
  (forall a r, (string_len r <= string_len s)%nat -> within s (k a r)) ->
  within s (json.pbind x k).
Proof.
  intros [H1 H2] Hk. destruct x as [a r | |]; cbn [json.pbind].
  - apply Hk. apply (H2 a r eq_refl).
  - apply within_Malformed.
  - congruence.
Qed.

Lemma within_pmap {A B : Type} (s : string) (x : json.parsed A) (f : A -> B) :
  within s x -> within s (json.pmap f x).
Proof.
  intros [H1 H2]. destruct x as [a r | |]; cbn [json.pmap].
  - apply within_Parsed. apply (H2 a r eq_refl).
  - apply within_Malformed.
  - congruence.
Qed.

Lemma within_parseString (s : string) : within s (json.parseString s).
Proof.
  split; [apply parseString_fuel |]. intros a r H.
  apply parseString_len in H. lia.
Qed.

Lemma takeDigits_len (s : string) :
  (string_len (snd (json.takeDigits s)) <= string_len s)%nat.
Proof.
  induction s as [| c r IH]; [apply le_n |].
  cbn [json.takeDigits]. destruct (json.isDigit c); [| apply le_n].
  destruct (json.takeDigits r) as [ds rest]. cbn [snd] in *.
  rewrite string_len_String. lia.
Qed.

Lemma takeSign_len (allowed : ascii -> bool) (s : string) :
  (string_len (snd (json.takeSign allowed s)) <= string_len s)%nat.
Proof.
  destruct s as [| c r]; [apply le_n |]. cbn [json.takeSign].
  destruct (allowed c); cbn [snd]; rewrite ?string_len_String; lia.
Qed.

Lemma within_parseDigits (s : string) : within s (json.parseDigits s).
Proof.
  unfold json.parseDigits. pose proof (takeDigits_len s) as H.
  destruct (json.takeDigits s) as [[| d ds] rest]; cbn [snd] in H.
  - apply within_Malformed.
  - apply within_Parsed. exact H.
Qed.

Lemma within_parseFraction (s : string) : within s (json.parseFraction s).
Proof.
  unfold json.parseFraction. destruct s as [| c r].
  - apply within_Parsed, le_n.
  - destruct (Bytes.eqb c "."%char); [| apply within_Parsed, le_n].
    apply within_pbind.
    + apply (within_weaken _ r); [apply within_parseDigits |].
      rewrite string_len_String. lia.
    + intros ds rest H. apply within_Parsed. exact H.
Qed.

Lemma within_parseExponent (s : string) : within s (json.parseExponent s).
Proof.
  unfold json.parseExponent. destruct s as [| c r].
  - apply within_Parsed, le_n.
  - destruct (_ || _); [| apply within_Parsed, le_n].
    pose proof (takeSign_len json.isPlusOrMinus r) as H.
    destruct (json.takeSign json.isPlusOrMinus r) as [sign r1]. cbn [snd] in H.
    apply within_pbind.
    + apply (within_weaken _ r1); [apply within_parseDigits |].
      rewrite string_len_String. lia.
    + intros ds rest Hr. apply within_Parsed. exact Hr.
Qed.

Lemma within_parseIntPart (s : string) : within s (json.parseIntPart s).
Proof.
  unfold json.parseIntPart. destruct s as [| c r].
  - apply within_Malformed.
  - destruct (Bytes.eqb c "0"%char).
    + apply within_Parsed. rewrite string_len_String. lia.
    + destruct (Bytes.between 49 57 c); [| apply within_Malformed].
      pose proof (takeDigits_len r) as H.
      destruct (json.takeDigits r) as [ds rest]. cbn [snd] in H.
      apply within_Parsed. rewrite string_len_String. lia.
Qed.

Lemma within_parseNumber (s : string) : within s (json.parseNumber s).
Proof.
  unfold json.parseNumber. pose proof (takeSign_len json.isMinus s) as H.
  destruct (json.takeSign json.isMinus s) as [sign s1]. cbn [snd] in H.
  apply within_pbind.
  - apply (within_weaken _ s1); [apply within_parseIntPart | exact H].
  - intros i r1 H1. apply within_pbind.
    + apply (within_weaken _ r1); [apply within_parseFraction | exact H1].
    + intros f r2 H2. apply within_pbind.
      * apply (within_weaken _ r2); [apply within_parseExponent | exact H2].
      * intros e r3 H3. apply within_Parsed. exact H3.
Qed.

Lemma stripPrefix_len (p s r : string) :
  json.stripPrefix p s = Some r -> (string_len r <= string_len s)%nat.
Proof.
  revert s. induction p as [| a p IH]; intros s H.
  - injection H as <-. apply le_n.
  - destruct s as [| b s']; [discriminate H |].
    cbn [json.stripPrefix] in H. destruct (Bytes.eqb a b); [| discriminate H].
    apply IH in H. rewrite string_len_String. lia.
Qed.

Lemma within_skip {A : Type} (s : string) (x : json.parsed A) :
  within (json.skipSpace s) x -> within s x.
Proof. intros H. apply (within_weaken _ _ _ H). apply skipSpace_len. Qed.

(** With fuel for twice the length of the text, none of the three readers
    runs out of it. *)
Lemma parse_within (fuel : nat) :
  (forall s, (2 * string_len s + 1 <= fuel)%nat ->
             within s (json.parseValue fuel s))
  /\ (forall s, (2 * string_len s + 2 <= fuel)%nat ->
                within s (json.parseElems fuel s))
  /\ (forall s, (2 * string_len s + 2 <= fuel)%nat ->
                within s (json.parseMembers fuel s)).
Proof.
  induction fuel as [| fuel [IHv [IHe IHm]]].
  - split; [| split]; intros s H; lia.
  - split; [| split]; intros s Hf.
    + cbn [json.parseValue]. apply within_skip.
      pose proof (skipSpace_len s) as Hs.
      destruct (json.skipSpace s) as [| c r]; [apply within_Malformed |].
      rewrite string_len_String in Hs.
      destruct (Bytes.eqb c "{"%char).
      { pose proof (skipSpace_len r) as Hr.
        destruct (json.skipSpace r) as [| c' r']; [apply within_Malformed |].
        rewrite string_len_String in Hr.
        destruct (Bytes.eqb c' "}"%char).
        - apply within_Parsed. rewrite string_len_String. lia.
        - apply within_pmap. apply (within_weaken _ (String c' r')).
          + apply IHm. rewrite string_len_String. lia.
          + rewrite !string_len_String. lia. }
      destruct (Bytes.eqb c "["%char).
      { pose proof (skipSpace_len r) as Hr.
        destruct (json.skipSpace r) as [| c' r']; [apply within_Malformed |].
        rewrite string_len_String in Hr.
        destruct (Bytes.eqb c' "]"%char).
        - apply within_Parsed. rewrite string_len_String. lia.
        - apply within_pmap. apply (within_weaken _ (String c' r')).
          + apply IHe. rewrite string_len_String. lia.
          + rewrite !string_len_String. lia. }
      destruct (Bytes.eqb c Bytes.dquote).
      { apply within_pmap. apply (within_weaken _ r).
        - apply within_parseString.
        - rewrite string_len_String. lia. }
      destruct (_ || _); [apply within_pmap, within_parseNumber |].
      destruct (json.stripPrefix "true" (String c r)) as [rest |] eqn:E1.
      { apply within_Parsed. apply (stripPrefix_len _ _ _ E1). }
      destruct (json.stripPrefix "false" (String c r)) as [rest |] eqn:E2.
      { apply within_Parsed. apply (stripPrefix_len _ _ _ E2). }
      destruct (json.stripPrefix "null" (String c r)) as [rest |] eqn:E3.
      { apply within_Parsed. apply (stripPrefix_len _ _ _ E3). }
      apply within_Malformed.
    + cbn [json.parseElems].
      destruct (IHv s) as [V1 V2]; [lia |].
      destruct (json.parseValue fuel s) as [v r | |];
        [| apply within_Malformed | congruence].
      specialize (V2 v r eq_refl).
      pose proof (skipSpace_len r) as Hr.
      destruct (json.skipSpace r) as [| c r']; [apply within_Malformed |].
      rewrite string_len_String in Hr.
      destruct (Bytes.eqb c ","%char).
      { apply within_pmap. apply (within_weaken _ r'); [apply IHe |]; lia. }
      destruct (Bytes.eqb c "]"%char); [| apply within_Malformed].
      apply within_Parsed. lia.
    + cbn [json.parseMembers]. apply within_skip.
      pose proof (skipSpace_len s) as Hs.
      destruct (json.skipSpace s) as [| q r]; [apply within_Malformed |].
      rewrite string_len_String in Hs.
      destruct (Bytes.eqb q Bytes.dquote); [| apply within_Malformed].
      destruct (within_parseString r) as [K1 K2].
      destruct (json.parseString r) as [k r1 | |];
        [| apply within_Malformed | congruence].
      specialize (K2 k r1 eq_refl).
      pose proof (skipSpace_len r1) as Hr1.
      destruct (json.skipSpace r1) as [| c1 r2]; [apply within_Malformed |].
      rewrite string_len_String in Hr1.
      destruct (Bytes.eqb c1 ":"%char); [| apply within_Malformed].
      destruct (IHv r2) as [V1 V2]; [lia |].
      destruct (json.parseValue fuel r2) as [v r3 | |];
        [| apply within_Malformed | congruence].
      specialize (V2 v r3 eq_refl).
      pose proof (skipSpace_len r3) as Hr3.
      destruct (json.skipSpace r3) as [| c3 r4]; [apply within_Malformed |].
      rewrite string_len_String in Hr3.
      destruct (Bytes.eqb c3 ","%char).
      { apply within_pmap. apply (within_weaken _ r4).
        - apply IHm. lia.
        - rewrite string_len_String. lia. }
      destruct (Bytes.eqb c3 "}"%char); [| apply within_Malformed].
      apply within_Parsed. rewrite string_len_String. lia.
Qed.

(** [readValue] never runs out of fuel: what [Decode_clientCredsGrant]
    reports as a syntax error is a text that is malformed. *)
Lemma readValue_fuel (s : string) : json.readValue s <> json.OutOfFuel.
Proof.
  unfold json.readValue, json.enough.
  destruct (parse_within (S (2 * string_len s))) as [H _].
  apply (H s). lia.
Qed.

(** ** The renewal and the call *)

Lemma renewGrant_unfold (g : Grant) (w : World) :
  renewGrant g w =
  match answerTo g w with
  | inr e => (Some (Wrap (TransportError e) "cred http request"), g, posted g w)
  | inl resp =>
      if negb (http.StatusCode resp =? http.StatusOK) then
        (Some (Errorf ("response status: " ++ http.Status resp
                       ++ ", body: " ++ http.Body resp)), g, posted g w)
      else
        match Decode_clientCredsGrant (http.Body resp) clientCredsGrant_zero with
        | (_, Some e) =>
            (Some (Wrap (JSONError e) "decode grant from response"), g,
             posted g w)
        | (d, None) =>
            let '(now, c) := nowFn g (clock w) in
            (None,
             mkGrant (Some (renewed d)) now (tokenURL g) (credRequest g) (nowFn g),
             mkWorld c (net (posted g w)))
        end
  end.
Proof.
  unfold renewGrant, answerTo, posted, renewalRequest.
  cbn [json.Marshal json.encodeValue CredentialsRequest_value fst snd].
  unfold bind, http_Post, ret, call. cbn [fst snd].
  destruct (http.answer _ _ _) as [resp | e]; [| reflexivity].
  destruct (negb _); [reflexivity |].
  destruct (Decode_clientCredsGrant _ _) as [d [e |]]; [reflexivity |].
  cbn [clock net]. destruct (nowFn g (clock w)) as [now c]. reflexivity.
Qed.

Lemma needsRenew_unfold (g : Grant) (w : World) :
  needsRenew g w =
  match grant g with
  | None => (true, w)
  | Some gr =>
      (time.After (currentTime g w) (time.Add (issuedAt g) (ExpiresIn gr)),
       afterReading g w)
  end.
Proof.
  unfold needsRenew, currentTime, afterReading.
  destruct (grant g) as [gr |]; [| reflexivity].
  unfold bind, call, ret. destruct (nowFn g (clock w)); reflexivity.
Qed.

Lemma needsRenew_Stale (g : Grant) (w : World) :
  fst (needsRenew g w) = true <-> Stale g w.
Proof.
  rewrite needsRenew_unfold. unfold Stale.
  destruct (grant g) as [gr |]; cbn [fst].
  - unfold time.After. rewrite Z.ltb_lt. split.
    + intros H. right. exists gr. split; [reflexivity | exact H].
    + intros [H | [gr' [H1 H2]]]; [discriminate | congruence].
  - split; [intros _; left; reflexivity | reflexivity].
Qed.

Lemma needsRenew_net (g : Grant) (w : World) :
  net (snd (needsRenew g w)) = net w.
Proof.
  rewrite needsRenew_unfold. destruct (grant g); reflexivity.
Qed.

Lemma GetAccessToken_unfold (g : Grant) (w : World) :
  GetAccessToken g w =
  if fst (needsRenew g w) then
    match fst (fst (renewGrant g (snd (needsRenew g w)))) with
    | Some e =>
        (Return "" (Some (Wrap e "renew grant")),
         snd (fst (renewGrant g (snd (needsRenew g w)))),
         snd (renewGrant g (snd (needsRenew g w))))
    | None =>
        (returnAccessToken (snd (fst (renewGrant g (snd (needsRenew g w))))),
         snd (fst (renewGrant g (snd (needsRenew g w)))),
         snd (renewGrant g (snd (needsRenew g w))))
    end
  else (returnAccessToken g, g, snd (needsRenew g w)).
Proof.
  unfold GetAccessToken, bind.
  destruct (needsRenew g w) as [stale w1]. cbn [fst snd].
  destruct stale; [| reflexivity].
  destruct (renewGrant g w1) as [[err g'] w2]. cbn [fst snd].
  destruct err; reflexivity.
Qed.

(** A renewal leaves the cache as it is when it fails. *)
Lemma renewGrant_failure_keeps (g : Grant) (w : World) (e : error) :
  fst (fst (renewGrant g w)) = Some e -> snd (fst (renewGrant g w)) = g.
Proof.
  rewrite renewGrant_unfold.
  destruct (answerTo g w) as [resp | m]; [| reflexivity].
  destruct (negb _); [reflexivity |].
  destruct (Decode_clientCredsGrant _ _) as [d [je |]]; [reflexivity |].
  destruct (nowFn g (clock w)). cbn. discriminate.
Qed.

(** Every renewal issues one POST, whatever comes of it. *)
Lemma renewGrant_posts (g : Grant) (w : World) :
  http.posts (net (snd (renewGrant g w)))
  = (http.posts (net w) ++ [renewalRequest g])%list.
Proof.
  rewrite renewGrant_unfold.
  destruct (answerTo g w) as [resp | m]; [| reflexivity].
  destruct (negb _); [reflexivity |].
  destruct (Decode_clientCredsGrant _ _) as [d [je |]]; [reflexivity |].
  destruct (nowFn g (clock w)). reflexivity.
Qed.

(** A renewal that succeeds stores a grant. *)
Lemma renewGrant_success_stores (g : Grant) (w : World) :
  fst (fst (renewGrant g w)) = None ->
  grant (snd (fst (renewGrant g w))) <> None.
Proof.
  rewrite renewGrant_unfold.
  destruct (answerTo g w) as [resp | m]; [| discriminate].
  destruct (negb _); [discriminate |].
  destruct (Decode_clientCredsGrant _ _) as [d [je |]]; [discriminate |].
  destruct (nowFn g (clock w)). cbn. discriminate.
Qed.

Lemma GetAccessToken_posts (g : Grant) (w : World) :
  http.posts (net (snd (GetAccessToken g w)))
  = if fst (needsRenew g w)
    then (http.posts (net w) ++ [renewalRequest g])%list
    else http.posts (net w).
Proof.
  rewrite GetAccessToken_unfold.
  destruct (fst (needsRenew g w)).
  - destruct (fst (fst (renewGrant _ _))); cbn [snd];
      rewrite renewGrant_posts, needsRenew_net; reflexivity.
  - cbn [snd]. rewrite needsRenew_net. reflexivity.
Qed.

Lemma renewalCalls_app (w w' : World) (l : list http.Request) :
  http.posts (net w') = (http.posts (net w) ++ l)%list ->
  renewalCalls w w' = List.length l.
Proof.
  intros H. unfold renewalCalls. rewrite H, List.length_app. lia.
Qed.

Lemma GetAccessToken_renewalCalls (g : Grant) (w : World) :
  renewalCalls w (snd (GetAccessToken g w))
  = if fst (needsRenew g w) then 1%nat else 0%nat.
Proof.
  pose proof (GetAccessToken_posts g w) as H.
  destruct (fst (needsRenew g w)).
  - apply (renewalCalls_app _ _ [renewalRequest g]). exact H.
  - apply (renewalCalls_app _ _ []). rewrite H, List.app_nil_r. reflexivity.
Qed.

(** C1. A call of [GetAccessToken] performs a renewal (issues its POST)
    if and only if no grant is stored or the reading of the time source is
    strictly later than [issuedAt + ExpiresIn]; it performs none otherwise.
    In particular, with a grant stored whose expiry is at or after that
    reading (equality included), no renewal is made, the cached access
    token is returned with a nil error, and the cache is unchanged. *)
Theorem C1_staleness_predicate (g : Grant) (w : World) :
  (renewalCalls w (worldOf (GetAccessToken g w)) = 1%nat <-> Stale g w)
  /\ (renewalCalls w (worldOf (GetAccessToken g w)) = 0%nat <-> ~ Stale g w)
  /\ (forall gr : clientCredsGrant,
        grant g = Some gr ->
        currentTime g w <= time.Add (issuedAt g) (ExpiresIn gr) ->
        renewalCalls w (worldOf (GetAccessToken g w)) = 0%nat
        /\ outcomeOf (GetAccessToken g w) = Return (AccessToken gr) None
        /\ grantOf (GetAccessToken g w) = g).
Proof.
  unfold worldOf, outcomeOf, grantOf.
  rewrite GetAccessToken_renewalCalls, GetAccessToken_unfold.
  destruct (fst (needsRenew g w)) eqn:E.
  - assert (HS : Stale g w) by (apply needsRenew_Stale; exact E).
    split; [split; [intros _; exact HS | reflexivity] |].
    split; [split; [discriminate | intros H; elim (H HS)] |].
    intros gr Hg Hle. exfalso.
    destruct HS as [HS | [gr' [H1 H2]]]; [congruence |].
    assert (gr' = gr) by congruence. subst gr'. lia.
  - assert (HS : ~ Stale g w).
    { intros H. apply needsRenew_Stale in H. congruence. }
    split; [split; [discriminate | intros H; elim (HS H)] |].
    split; [split; [intros _; exact HS | reflexivity] |].
    intros gr Hg _. cbn [fst snd]. unfold returnAccessToken. rewrite Hg.
    repeat split.
Qed.

Lemma answerTo_afterReading (g : Grant) (w : World) :
  answerTo g (afterReading g w) = answerTo g w.
Proof. reflexivity. Qed.

Lemma needsRenew_world (g : Grant) (w : World) (gr : clientCredsGrant) :
  grant g = Some gr -> snd (needsRenew g w) = afterReading g w.
Proof. intros H. rewrite needsRenew_unfold, H. reflexivity. Qed.

(** What a renewal that succeeds leaves. *)
Lemma renewGrant_success (g : Grant) (w : World) :
  fst (fst (renewGrant g w)) = None ->
  exists (resp : http.Response) (d : clientCredsGrant),
    answerTo g w = inl resp
    /\ http.StatusCode resp = http.StatusOK
    /\ Decode_clientCredsGrant (http.Body resp) clientCredsGrant_zero = (d, None)
    /\ snd (fst (renewGrant g w))
       = mkGrant (Some (renewed d)) (currentTime g w) (tokenURL g)
           (credRequest g) (nowFn g).
Proof.
  rewrite renewGrant_unfold. unfold currentTime.
  destruct (answerTo g w) as [resp | m]; [| discriminate].
  destruct (http.StatusCode resp =? http.StatusOK) eqn:E; [| discriminate].
  cbn [negb]. apply Z.eqb_eq in E.
  destruct (Decode_clientCredsGrant _ _) as [d [je |]] eqn:ED; [discriminate |].
  destruct (nowFn g (clock w)) as [now c]. cbn [fst snd]. intros _.
  exists resp, d. split; [reflexivity |]. split; [exact E |].
  split; [exact ED | reflexivity].
Qed.

(** C2. With a grant stored whose [issuedAt + ExpiresIn] is strictly
    before the reading of the time source, [GetAccessToken] performs
    exactly one renewal.  When it succeeds, the stored grant is the one
    decoded from the response (nothing of the old one is kept), the token
    returned is its access token, and [issuedAt] is the reading the time
    source gives during the renewal, which is the time injected when the
    time source is a stopped clock. *)
Theorem C2_stale_cache_renewal (g : Grant) (w : World) (gr : clientCredsGrant) :
  grant g = Some gr ->
  time.Add (issuedAt g) (ExpiresIn gr) < currentTime g w ->
  renewalCalls w (worldOf (GetAccessToken g w)) = 1%nat
  /\ http.posts (net (worldOf (GetAccessToken g w)))
     = (http.posts (net w) ++ [renewalRequest g])%list
  /\ (forall token : string,
        outcomeOf (GetAccessToken g w) = Return token None ->
        exists (resp : http.Response) (d : clientCredsGrant),
          answerTo g w = inl resp
          /\ Decode_clientCredsGrant (http.Body resp) clientCredsGrant_zero
             = (d, None)
          /\ grant (grantOf (GetAccessToken g w)) = Some (renewed d)
          /\ issuedAt (grantOf (GetAccessToken g w))
             = currentTime g (afterReading g w)
          /\ token = AccessToken d)
  /\ (forall t : time.Time,
        (forall c, nowFn g c = (t, c)) ->
        forall token : string,
        outcomeOf (GetAccessToken g w) = Return token None ->
        issuedAt (grantOf (GetAccessToken g w)) = currentTime g w).
Proof.
  intros Hg Hlt.
  assert (HS : fst (needsRenew g w) = true).
  { apply needsRenew_Stale. right. exists gr. split; assumption. }
  assert (Hmain : forall token : string,
        outcomeOf (GetAccessToken g w) = Return token None ->
        exists (resp : http.Response) (d : clientCredsGrant),
          answerTo g w = inl resp
          /\ Decode_clientCredsGrant (http.Body resp) clientCredsGrant_zero
             = (d, None)
          /\ grant (grantOf (GetAccessToken g w)) = Some (renewed d)
          /\ issuedAt (grantOf (GetAccessToken g w))
             = currentTime g (afterReading g w)
          /\ token = AccessToken d).
  { intros token. unfold outcomeOf, grantOf.
    rewrite GetAccessToken_unfold, HS, (needsRenew_world g w gr Hg).
    destruct (fst (fst (renewGrant g (afterReading g w)))) eqn:E;
      cbn [fst snd]; [discriminate |].
    destruct (renewGrant_success _ _ E) as [resp [d [H1 [_ [H3 H4]]]]].
    rewrite H4. cbn. intros H. exists resp, d.
    rewrite answerTo_afterReading in H1. repeat split; [exact H1 | exact H3 |].
    congruence. }
  unfold worldOf. rewrite GetAccessToken_renewalCalls, GetAccessToken_posts, HS.
  split; [reflexivity |]. split; [reflexivity |]. split; [exact Hmain |].
  intros t Ht token H. destruct (Hmain token H) as [_ [_ [_ [_ [_ [H4 _]]]]]].
  rewrite H4. unfold currentTime, afterReading. cbn [clock].
  rewrite !Ht. reflexivity.
Qed.

(** C3. With no grant stored, which is the state [NewGrant] produces,
    [GetAccessToken] performs exactly one renewal, and every renewal
    issues exactly one POST, to the configured URL, with content type
    [application/json]. *)
Theorem C3_empty_cache_renewal (g : Grant) (w : World) :
  grant g = None ->
  renewalCalls w (worldOf (GetAccessToken g w)) = 1%nat
  /\ http.posts (net (worldOf (GetAccessToken g w)))
     = (http.posts (net w) ++ [renewalRequest g])%list
  /\ http.URL (renewalRequest g) = tokenURL g
  /\ http.ContentType (renewalRequest g) = "application/json"
  /\ (forall (g0 : Grant) (w0 : World),
        http.posts (net (worldOf (renewGrant g0 w0)))
        = (http.posts (net w0) ++ [renewalRequest g0])%list)
  /\ (forall (url : string) (c : CredentialsRequest),
        grant (NewGrant url c) = None).
Proof.
  intros Hg.
  assert (HS : fst (needsRenew g w) = true).
  { apply needsRenew_Stale. left. exact Hg. }
  unfold worldOf. rewrite GetAccessToken_renewalCalls, GetAccessToken_posts, HS.
  repeat split. intros g0 w0. apply renewGrant_posts.
Qed.

Lemma renewGrant_failure (g : Grant) (w : World) (e : error) :
  fst (fst (renewGrant g w)) = Some e <-> RenewalFailure g w e.
Proof.
  rewrite renewGrant_unfold. split.
  - destruct (answerTo g w) as [resp | m] eqn:EA.
    + destruct (http.StatusCode resp =? http.StatusOK) eqn:E; cbn [negb].
      * apply Z.eqb_eq in E.
        destruct (Decode_clientCredsGrant _ _) as [d [je |]] eqn:ED.
        -- cbn. intros H. injection H as <-.
           eapply DecodeFailure; eassumption.
        -- destruct (nowFn g (clock w)). cbn. discriminate.
      * apply Z.eqb_neq in E. cbn. intros H. injection H as <-.
        apply UnexpectedStatusFailure; assumption.
    + cbn. intros H. injection H as <-. apply TransportFailure. exact EA.
  - intros [je H | m H | resp H1 H2 | resp d je H1 H2 H3].
    + discriminate H.
    + rewrite H. reflexivity.
    + rewrite H1. apply Z.eqb_neq in H2. rewrite H2. reflexivity.
    + rewrite H1. apply Z.eqb_eq in H2. rewrite H2. cbn [negb].
      rewrite H3. reflexivity.
Qed.

(** A call on a stale cache whose renewal fails returns the error in
    its context, no token, and leaves the cache as it was. *)
Lemma GetAccessToken_failure (g : Grant) (w : World) (e : error) :
  Stale g w ->
  RenewalFailure g w e ->
  outcomeOf (GetAccessToken g w) = Return "" (Some (Wrap e "renew grant"))
  /\ grantOf (GetAccessToken g w) = g.
Proof.
  intros HS HF. apply needsRenew_Stale in HS.
  assert (HF' : fst (fst (renewGrant g (snd (needsRenew g w)))) = Some e).
  { apply renewGrant_failure.
    destruct HF as [je H | m H | resp H1 H2 | resp d je H1 H2 H3].
    - apply SerializationFailure; exact H.
    - apply TransportFailure. unfold answerTo in *.
      rewrite needsRenew_net. exact H.
    - apply UnexpectedStatusFailure; [| exact H2]. unfold answerTo in *.
      rewrite needsRenew_net. exact H1.
    - apply (DecodeFailure _ _ resp d); [| exact H2 | exact H3].
      unfold answerTo in *. rewrite needsRenew_net. exact H1. }
  unfold outcomeOf, grantOf. rewrite GetAccessToken_unfold, HS, HF'.
  cbn [fst snd]. split; [reflexivity |].
  apply (renewGrant_failure_keeps _ _ e HF').
Qed.

(** [GetAccessToken] never reads through a nil [grant]. *)
Lemma GetAccessToken_no_panic (g : Grant) (w : World) :
  outcomeOf (GetAccessToken g w) <> Panic.
Proof.
  unfold outcomeOf. rewrite GetAccessToken_unfold.
  destruct (fst (needsRenew g w)) eqn:E.
  - destruct (fst (fst (renewGrant _ _))) eqn:ER; cbn [fst]; [discriminate |].
    apply renewGrant_success_stores in ER. unfold returnAccessToken.
    destruct (grant _); [discriminate | congruence].
  - cbn [fst]. unfold returnAccessToken.
    destruct (grant g) eqn:EG; [discriminate |].
    rewrite needsRenew_unfold, EG in E. discriminate.
Qed.

(** An error comes with the empty token. *)
Lemma GetAccessToken_error_token (g : Grant) (w : World)
    (token : string) (e : error) :
  outcomeOf (GetAccessToken g w) = Return token (Some e) ->
  token = ""
  /\ exists e0, e = Wrap e0 "renew grant"
                /\ RenewalFailure g (snd (needsRenew g w)) e0.
Proof.
  unfold outcomeOf. rewrite GetAccessToken_unfold.
  destruct (fst (needsRenew g w)).
  - destruct (fst (fst (renewGrant _ _))) as [e0 |] eqn:ER; cbn [fst].
    + intros H. injection H as <- <-. split; [reflexivity |].
      exists e0. split; [reflexivity |]. apply renewGrant_failure. exact ER.
    + unfold returnAccessToken. destruct (grant _); discriminate.
  - cbn [fst]. unfold returnAccessToken. destruct (grant g); discriminate.
Qed.

(** C4. When the renewal of a stale cache fails, in any of the four
    ways, [GetAccessToken] returns the error wrapped in the context
    [renew grant] with the empty token, and the cache after the call is
    the cache before it: stored grant and [issuedAt] are unchanged. *)
Theorem C4_error_propagation (g : Grant) (w : World) (e : error) :
  Stale g w ->
  RenewalFailure g w e ->
  outcomeOf (GetAccessToken g w) = Return "" (Some (Wrap e "renew grant"))
  /\ grantOf (GetAccessToken g w) = g
  /\ grant (grantOf (GetAccessToken g w)) = grant g
  /\ issuedAt (grantOf (GetAccessToken g w)) = issuedAt g.
Proof.
  intros HS HF. destruct (GetAccessToken_failure g w e HS HF) as [H1 H2].
  rewrite H1, H2. repeat split.
Qed.

(** C6. When the cache is stale and the response has a status other than
    200, [GetAccessToken] fails with the error that carries the status
    line and the body of the response, in the context [renew grant], and
    the cache is unchanged. *)
Theorem C6_non_200_response (g : Grant) (w : World) (resp : http.Response) :
  Stale g w ->
  answerTo g w = inl resp ->
  http.StatusCode resp <> 200 ->
  outcomeOf (GetAccessToken g w)
  = Return ""
      (Some (Wrap (Errorf ("response status: " ++ http.Status resp
                           ++ ", body: " ++ http.Body resp))
               "renew grant"))
  /\ grantOf (GetAccessToken g w) = g.
Proof.
  intros HS HA HC. apply GetAccessToken_failure; [exact HS |].
  apply UnexpectedStatusFailure; assumption.
Qed.

(** C8. [json.Marshal] succeeds on every [CredentialsRequest], so no
    renewal ever fails with the error of the branch
    [json encode cred request]. *)
Theorem C8_serialization_never_fails :
  (forall c : CredentialsRequest,
      snd (json.Marshal (CredentialsRequest_value c)) = None)
  /\ (forall (g : Grant) (w : World) (e : json.error),
        fst (fst (renewGrant g w))
        <> Some (Wrap (JSONError e) "json encode cred request")).
Proof.
  split; [reflexivity |].
  intros g w e H. apply renewGrant_failure in H.
  inversion H as [je HM | | |]. discriminate HM.
Qed.

(** C9. Whenever [GetAccessToken] returns a non-nil error, the token it
    returns with it is the empty string. *)
Theorem C9_error_has_empty_token (g : Grant) (w : World)
    (token : string) (e : error) :
  outcomeOf (GetAccessToken g w) = Return token (Some e) ->
  token = "".
Proof.
  intros H. apply GetAccessToken_error_token in H. apply H.
Qed.

(** [int64] arithmetic is exact within the range. *)
Lemma wrap64_small (z : Z) :
  - 2 ^ 63 <= z < 2 ^ 63 -> time.wrap64 z = z.
Proof.
  intros H. unfold time.wrap64. rewrite Z.mod_small by lia. lia.
Qed.

(** What a renewal does when the server answers 200 and the body
    decodes. *)
Lemma renewGrant_decoded (g : Grant) (w : World) (resp : http.Response)
    (d : clientCredsGrant) :
  answerTo g w = inl resp ->
  http.StatusCode resp = http.StatusOK ->
  Decode_clientCredsGrant (http.Body resp) clientCredsGrant_zero = (d, None) ->
  fst (renewGrant g w)
  = (None, mkGrant (Some (renewed d)) (currentTime g w) (tokenURL g)
             (credRequest g) (nowFn g)).
Proof.
  intros HA HC HD. rewrite renewGrant_unfold, HA.
  apply Z.eqb_eq in HC. rewrite HC. cbn [negb]. rewrite HD.
  unfold currentTime. destruct (nowFn g (clock w)). reflexivity.
Qed.

Lemma GetAccessToken_decoded (g : Grant) (w : World) (resp : http.Response)
    (d : clientCredsGrant) :
  Stale g w ->
  answerTo g w = inl resp ->
  http.StatusCode resp = http.StatusOK ->
  Decode_clientCredsGrant (http.Body resp) clientCredsGrant_zero = (d, None) ->
  outcomeOf (GetAccessToken g w) = Return (AccessToken d) None
  /\ grant (grantOf (GetAccessToken g w)) = Some (renewed d).
Proof.
  intros HS HA HC HD. apply needsRenew_Stale in HS.
  assert (HR : fst (renewGrant g (snd (needsRenew g w)))
               = (None, mkGrant (Some (renewed d))
                          (currentTime g (snd (needsRenew g w))) (tokenURL g)
                          (credRequest g) (nowFn g))).
  { apply (renewGrant_decoded _ _ resp); [| exact HC | exact HD].
    unfold answerTo in *. rewrite needsRenew_net. exact HA. }
  unfold outcomeOf, grantOf. rewrite GetAccessToken_unfold, HS.
  destruct (renewGrant g (snd (needsRenew g w))) as [[err g'] w2].
  cbn [fst snd] in *. injection HR as -> ->. split; reflexivity.
Qed.

Lemma Decode_testGrantResponse :
  Decode_clientCredsGrant testGrantResponse clientCredsGrant_zero
  = (mkClientCredsGrant "open-sesame" "u-cant-touch-dis" 1 "Bearer", None).
Proof. vm_compute. reflexivity. Qed.

(** C5. A renewal stores the decoded [expires_in] multiplied by
    [time.Second], in the arithmetic of [int64], which is exact for every
    count of seconds below 292 years.  For the response body of
    the tests, the stored [ExpiresIn] is one second, that is a thousand
    million nanoseconds and not one, and the stored access token is
    [open-sesame]. *)
Theorem C5_expires_in_seconds (g : Grant) (w : World) (resp : http.Response) :
  answerTo g w = inl resp ->
  http.StatusCode resp = 200 ->
  (forall d : clientCredsGrant,
      Decode_clientCredsGrant (http.Body resp) clientCredsGrant_zero = (d, None) ->
      exists gr : clientCredsGrant,
        grant (snd (fst (renewGrant g w))) = Some gr
        /\ ExpiresIn gr = time.wrap64 (ExpiresIn d * time.Second)
        /\ (- 9223372036 <= ExpiresIn d <= 9223372036 ->
            ExpiresIn gr = ExpiresIn d * time.Second)
        /\ AccessToken gr = AccessToken d)
  /\ (http.Body resp = testGrantResponse ->
      exists gr : clientCredsGrant,
        grant (snd (fst (renewGrant g w))) = Some gr
        /\ ExpiresIn gr = time.Second
        /\ ExpiresIn gr = 1000000000 * time.Nanosecond
        /\ ExpiresIn gr <> time.Nanosecond
        /\ AccessToken gr = "open-sesame"
        /\ gr = testGrant).
Proof.
  intros HA HC. split.
  - intros d HD. rewrite (renewGrant_decoded g w resp d HA HC HD).
    exists (renewed d). split; [reflexivity |]. split; [reflexivity |].
    split; [| reflexivity].
    intros Hd. cbn [renewed ExpiresIn]. apply wrap64_small.
    unfold time.Second. lia.
  - intros HB. pose proof Decode_testGrantResponse as HD. rewrite <- HB in HD.
    rewrite (renewGrant_decoded g w resp _ HA HC HD).
    exists testGrant. repeat split. discriminate.
Qed.

Lemma store_unknown (acc : clientCredsGrant * option json.error)
    (members : list (string * json.value)) :
  List.Forall unknownKey members ->
  List.fold_left clientCredsGrant_store members acc = acc.
Proof.
  intros H. revert acc. induction H as [| [k v] tl Hk _ IH]; intros acc.
  - reflexivity.
  - cbn [List.fold_left]. rewrite <- (IH acc) at 2. f_equal.
    unfold clientCredsGrant_store. destruct acc as [g saved].
    unfold unknownKey in Hk. cbn [fst] in Hk. rewrite Hk. reflexivity.
Qed.

Lemma findField_keys (k f : string) :
  json.findField clientCredsGrant_keys k = Some f ->
  f = "access_token" \/ f = "scope" \/ f = "expires_in" \/ f = "token_type".
Proof.
  unfold json.findField. intros H.
  assert (HI : List.In f clientCredsGrant_keys).
  { destruct (List.find (String.eqb k) clientCredsGrant_keys) eqn:E.
    - injection H as <-. apply List.find_some in E. apply E.
    - apply List.find_some in H. apply H. }
  cbn in HI. intuition auto.
Qed.

Lemma store_keeps_AccessToken (members : list (string * json.value))
    (acc : clientCredsGrant * option json.error) :
  List.Forall (notFor "access_token") members ->
  AccessToken (fst (List.fold_left clientCredsGrant_store members acc))
  = AccessToken (fst acc).
Proof.
  intros H. revert acc. induction H as [| [k v] tl Hk _ IH]; intros acc.
  - reflexivity.
  - cbn [List.fold_left]. rewrite IH. unfold clientCredsGrant_store.
    destruct acc as [g saved]. unfold notFor in Hk. cbn [fst] in Hk.
    destruct (json.findField clientCredsGrant_keys k) as [f |] eqn:E;
      [| reflexivity].
    destruct (findField_keys k f E) as [-> | [-> | [-> | ->]]].
    + congruence.
    + cbn. destruct (json.storeString _ _ _ _). reflexivity.
    + cbn. destruct (json.storeInt64 _ _ _ _). reflexivity.
    + cbn. destruct (json.storeString _ _ _ _). reflexivity.
Qed.

(** C10. A 200 response whose body is a JSON object without the fields
    of a grant is accepted: when none of its keys names a field, the grant
    stored is the zero value and [GetAccessToken] returns the empty token
    with a nil error; and whenever the body decodes and has no member for
    [access_token], the token returned is empty with a nil error. *)
Theorem C10_missing_fields_accepted (g : Grant) (w : World)
    (resp : http.Response) (members : list (string * json.value))
    (rest : string) :
  Stale g w ->
  answerTo g w = inl resp ->
  http.StatusCode resp = 200 ->
  json.readValue (http.Body resp) = json.Parsed (json.Object members) rest ->
  (List.Forall unknownKey members ->
     outcomeOf (GetAccessToken g w) = Return "" None
     /\ grant (grantOf (GetAccessToken g w)) = Some clientCredsGrant_zero)
  /\ (List.Forall (notFor "access_token") members ->
      forall d : clientCredsGrant,
      Decode_clientCredsGrant (http.Body resp) clientCredsGrant_zero = (d, None) ->
      outcomeOf (GetAccessToken g w) = Return "" None).
Proof.
  intros HS HA HC HP. split.
  - intros HU.
    assert (HD : Decode_clientCredsGrant (http.Body resp) clientCredsGrant_zero
                 = (clientCredsGrant_zero, None)).
    { unfold Decode_clientCredsGrant. rewrite HP.
      cbn [clientCredsGrant_unmarshal]. apply store_unknown. exact HU. }
    apply (GetAccessToken_decoded g w resp _ HS HA HC HD).
  - intros HN d HD.
    destruct (GetAccessToken_decoded g w resp d HS HA HC HD) as [H1 _].
    rewrite H1. f_equal.
    unfold Decode_clientCredsGrant in HD. rewrite HP in HD.
    cbn [clientCredsGrant_unmarshal] in HD.
    pose proof (store_keeps_AccessToken members (clientCredsGrant_zero, None) HN)
      as HK.
    rewrite HD in HK. exact HK.
Qed.

Lemma renewalRequest_payload (g : Grant) :
  renewalRequest g
  = http.mkRequest (tokenURL g) "application/json" (payloadOf (credRequest g)).
Proof.
  unfold renewalRequest. rewrite Marshal_CredentialsRequest. reflexivity.
Qed.

(** Neither a renewal nor a call changes the request, the URL or the time
    source. *)
Lemma renewGrant_config (g : Grant) (w : World) :
  credRequest (snd (fst (renewGrant g w))) = credRequest g
  /\ tokenURL (snd (fst (renewGrant g w))) = tokenURL g
  /\ nowFn (snd (fst (renewGrant g w))) = nowFn g.
Proof.
  rewrite renewGrant_unfold.
  destruct (answerTo g w) as [resp | m]; [| repeat split].
  destruct (negb _); [repeat split |].
  destruct (Decode_clientCredsGrant _ _) as [d [je |]]; [repeat split |].
  destruct (nowFn g (clock w)). repeat split.
Qed.

Lemma GetAccessToken_config (g : Grant) (w : World) :
  credRequest (grantOf (GetAccessToken g w)) = credRequest g
  /\ tokenURL (grantOf (GetAccessToken g w)) = tokenURL g
  /\ nowFn (grantOf (GetAccessToken g w)) = nowFn g.
Proof.
  unfold grantOf. rewrite GetAccessToken_unfold.
  destruct (fst (needsRenew g w)); [| repeat split].
  destruct (fst (fst (renewGrant _ _))); cbn [fst snd]; apply renewGrant_config.
Qed.

Lemma memberOf_grant_type (c : CredentialsRequest) :
  memberOf "grant_type" (payloadOf c)
  = Some (json.Str (toValidUTF8 (GrantType c))).
Proof.
  unfold memberOf. rewrite readValue_payload. reflexivity.
Qed.

(** C7 as stated fails: the value under [grant_type] is not a constant of the
    package.  A grant built with [GrantType] set to [password] posts a
    body whose [grant_type] is [password]. *)
Lemma C7_counterexample :
  Stale passwordGrant testWorld
  /\ http.posts (net (worldOf (GetAccessToken passwordGrant testWorld)))
     = [ http.mkRequest testURL "application/json"
           (Bytes.text "{'client_id':'joe-blow-id','client_secret':'joe-blow-secret','audience':'https://api.blowcorp.co/','grant_type':'password'}") ]
  /\ memberOf "grant_type"
       (Bytes.text "{'client_id':'joe-blow-id','client_secret':'joe-blow-secret','audience':'https://api.blowcorp.co/','grant_type':'password'}")
     = Some (json.Str "password")
  /\ json.Str "password" <> json.Str CLIENT_CREDS_GRANT_TYPE.
Proof.
  split; [left; reflexivity |].
  split; [vm_compute; reflexivity |].
  split; [vm_compute; reflexivity | discriminate].
Qed.

(** C7, amended.  The body of the POST of every renewal is the text
    [payloadOf] of the request held by the grant, which is the one given to
    [NewGrant] and is never changed.  It reads back as a JSON object with
    exactly the keys [client_id], [client_secret], [audience] and
    [grant_type], in this order, whose values are the fields of the request
    coerced to valid UTF-8, hence the fields themselves when they are valid
    UTF-8.  The value under [grant_type] is the field [GrantType] the
    caller supplied: it is [client_credentials] when the caller set it to
    [CLIENT_CREDS_GRANT_TYPE]. *)
Theorem C7_request_body (g : Grant) (w : World) :
  http.posts (net (worldOf (renewGrant g w)))
  = (http.posts (net w)
     ++ [http.mkRequest (tokenURL g) "application/json"
           (payloadOf (credRequest g))])%list
  /\ json.readValue (payloadOf (credRequest g))
     = json.Parsed
         (json.Object
            [ ("client_id", json.Str (toValidUTF8 (ClientID (credRequest g))));
              ("client_secret",
               json.Str (toValidUTF8 (ClientSecret (credRequest g))));
              ("audience", json.Str (toValidUTF8 (Audience (credRequest g))));
              ("grant_type",
               json.Str (toValidUTF8 (GrantType (credRequest g)))) ])
         ""
  /\ (forall s : string, utf8.ValidString s = true -> toValidUTF8 s = s)
  /\ (GrantType (credRequest g) = CLIENT_CREDS_GRANT_TYPE ->
      memberOf "grant_type" (payloadOf (credRequest g))
      = Some (json.Str "client_credentials"))
  /\ (forall (url : string) (c : CredentialsRequest),
        credRequest (NewGrant url c) = c)
  /\ credRequest (grantOf (GetAccessToken g w)) = credRequest g.
Proof.
  split.
  { unfold worldOf. rewrite renewGrant_posts, renewalRequest_payload.
    reflexivity. }
  split; [apply readValue_payload |].
  split; [apply toValidUTF8_valid |].
  split.
  { intros H. rewrite memberOf_grant_type, H. reflexivity. }
  split; [reflexivity |]. apply GetAccessToken_config.
Qed.

(** ** Instances on the fixtures of the tests *)

Lemma C1_witness :
  grant freshCache = Some testGrant
  /\ currentTime freshCache testWorld
     <= time.Add (issuedAt freshCache) (ExpiresIn testGrant)
  /\ renewalCalls testWorld (worldOf (GetAccessToken freshCache testWorld)) = 0%nat
  /\ outcomeOf (GetAccessToken freshCache testWorld) = Return "open-sesame" None
  /\ grantOf (GetAccessToken freshCache testWorld) = freshCache.
Proof.
  split; [reflexivity |]. split; [vm_compute; discriminate |].
  apply (proj2 (proj2 (C1_staleness_predicate freshCache testWorld)) testGrant).
  - reflexivity.
  - vm_compute. discriminate.
Defined.

Lemma C2_witness :
  grant expiredCache = Some testGrant
  /\ time.Add (issuedAt expiredCache) (ExpiresIn testGrant)
     < currentTime expiredCache testWorld
  /\ renewalCalls testWorld (worldOf (GetAccessToken expiredCache testWorld))
     = 1%nat.
Proof.
  split; [reflexivity |]. split; [reflexivity |].
  apply (C2_stale_cache_renewal expiredCache testWorld testGrant);
    reflexivity.
Defined.

Lemma C3_witness :
  grant emptyCache = None
  /\ renewalCalls testWorld (worldOf (GetAccessToken emptyCache testWorld))
     = 1%nat.
Proof.
  split; [reflexivity |].
  apply (C3_empty_cache_renewal emptyCache testWorld). reflexivity.
Defined.

Lemma C4_witness :
  Stale emptyCache (worldAnswering serverError)
  /\ RenewalFailure emptyCache (worldAnswering serverError)
       (Errorf "response status: 500 Internal Server Error, body: server error")
  /\ grantOf (GetAccessToken emptyCache (worldAnswering serverError))
     = emptyCache.
Proof.
  assert (HS : Stale emptyCache (worldAnswering serverError))
    by (left; reflexivity).
  assert (HF : RenewalFailure emptyCache (worldAnswering serverError)
       (Errorf "response status: 500 Internal Server Error, body: server error")).
  { apply (UnexpectedStatusFailure emptyCache (worldAnswering serverError)
             serverError); [reflexivity | discriminate]. }
  split; [exact HS |]. split; [exact HF |].
  apply (C4_error_propagation emptyCache (worldAnswering serverError) _ HS HF).
Defined.

Lemma C5_witness :
  answerTo emptyCache testWorld
  = inl (http.mkResponse 200 "200 OK" testGrantResponse)
  /\ exists gr : clientCredsGrant,
       grant (snd (fst (renewGrant emptyCache testWorld))) = Some gr
       /\ ExpiresIn gr = time.Second
       /\ ExpiresIn gr = 1000000000 * time.Nanosecond
       /\ ExpiresIn gr <> time.Nanosecond
       /\ AccessToken gr = "open-sesame"
       /\ gr = testGrant.
Proof.
  split; [reflexivity |].
  apply (C5_expires_in_seconds emptyCache testWorld
           (http.mkResponse 200 "200 OK" testGrantResponse));
    reflexivity.
Defined.

Lemma C6_witness :
  Stale emptyCache (worldAnswering serverError)
  /\ answerTo emptyCache (worldAnswering serverError) = inl serverError
  /\ http.StatusCode serverError <> 200
  /\ outcomeOf (GetAccessToken emptyCache (worldAnswering serverError))
     = Return ""
         (Some (Wrap (Errorf "response status: 500 Internal Server Error, body: server error")
                  "renew grant"))
  /\ grantOf (GetAccessToken emptyCache (worldAnswering serverError))
     = emptyCache.
Proof.
  assert (HS : Stale emptyCache (worldAnswering serverError))
    by (left; reflexivity).
  split; [exact HS |]. split; [reflexivity |]. split; [discriminate |].
  apply (C6_non_200_response emptyCache (worldAnswering serverError)
           serverError HS); [reflexivity | discriminate].
Defined.

Lemma C9_witness :
  outcomeOf (GetAccessToken emptyCache (worldAnswering serverError))
  = Return ""
      (Some (Wrap (Errorf "response status: 500 Internal Server Error, body: server error")
               "renew grant"))
  /\ "" = "".
Proof.
  split; [reflexivity |].
  apply (C9_error_has_empty_token emptyCache (worldAnswering serverError) ""
           (Wrap (Errorf "response status: 500 Internal Server Error, body: server error")
              "renew grant")).
  reflexivity.
Defined.

Lemma C10_witness :
  Stale emptyCache (worldAnswering emptyObject)
  /\ json.readValue (http.Body emptyObject) = json.Parsed (json.Object []) ""
  /\ outcomeOf (GetAccessToken emptyCache (worldAnswering emptyObject))
     = Return "" None
  /\ grant (grantOf (GetAccessToken emptyCache (worldAnswering emptyObject)))
     = Some clientCredsGrant_zero.
Proof.
  assert (HS : Stale emptyCache (worldAnswering emptyObject))
    by (left; reflexivity).
  split; [exact HS |]. split; [reflexivity |].
  apply (proj1 (C10_missing_fields_accepted emptyCache
                  (worldAnswering emptyObject) emptyObject [] ""
                  HS eq_refl eq_refl eq_refl)).
  constructor.
Defined.

Lemma C7_witness :
  GrantType (credRequest emptyCache) = CLIENT_CREDS_GRANT_TYPE
  /\ memberOf "grant_type" (payloadOf (credRequest emptyCache))
     = Some (json.Str "client_credentials").
Proof.
  split; [reflexivity |].
  apply (C7_request_body emptyCache testWorld). reflexivity.
Defined.

(** * Further properties *)

(** ** Calls in a row *)

Lemma GetAccessToken_success_token (g : Grant) (w : World) (token : string) :
  outcomeOf (GetAccessToken g w) = Return token None ->
  exists gr : clientCredsGrant,
    grant (grantOf (GetAccessToken g w)) = Some gr /\ AccessToken gr = token.
Proof.
  unfold outcomeOf, grantOf. rewrite GetAccessToken_unfold.
  destruct (fst (needsRenew g w)).
  - destruct (fst (fst (renewGrant _ _))); cbn [fst snd]; [discriminate |].
    unfold returnAccessToken.
    destruct (grant _) as [gr |]; [| discriminate].
    intros H. injection H as <-. exists gr. split; reflexivity.
  - cbn [fst snd]. unfold returnAccessToken.
    destruct (grant g) as [gr |]; [| discriminate].
    intros H. injection H as <-. exists gr. split; reflexivity.
Qed.

Lemma GetAccessToken_fresh (g : Grant) (w : World) (gr : clientCredsGrant) :
  grant g = Some gr ->
  currentTime g w <= time.Add (issuedAt g) (ExpiresIn gr) ->
  GetAccessToken g w = (Return (AccessToken gr) None, g, afterReading g w).
Proof.
  intros Hg Hle. rewrite GetAccessToken_unfold, needsRenew_unfold, Hg.
  cbn [fst snd]. unfold time.After.
  replace (_ <? _) with false by (symmetry; apply Z.ltb_ge; exact Hle).
  unfold returnAccessToken. rewrite Hg. reflexivity.
Qed.

(** X1. [GetAccessToken] never reads through a nil [grant], so it never
    panics; and when it returns a nil error, the token it returns is the
    access token of the grant that the cache then holds. *)
Theorem X1_never_panics (g : Grant) (w : World) :
  outcomeOf (GetAccessToken g w) <> Panic
  /\ forall token : string,
       outcomeOf (GetAccessToken g w) = Return token None ->
       exists gr : clientCredsGrant,
         grant (grantOf (GetAccessToken g w)) = Some gr
         /\ AccessToken gr = token.
Proof.
  split; [apply GetAccessToken_no_panic | apply GetAccessToken_success_token].
Qed.

(** X2. Two calls in a row: when the first returns a token and the time
    source, read again, is not past the expiry of the grant the cache
    holds, the second call returns the same token, issues no POST and
    leaves the cache as it is. *)
Theorem X2_second_call_cached (g : Grant) (w : World) (token : string) (gr : clientCredsGrant) :
  outcomeOf (GetAccessToken g w) = Return token None ->
  grant (grantOf (GetAccessToken g w)) = Some gr ->
  currentTime (grantOf (GetAccessToken g w)) (worldOf (GetAccessToken g w))
  <= time.Add (issuedAt (grantOf (GetAccessToken g w))) (ExpiresIn gr) ->
  outcomeOf (GetAccessToken (grantOf (GetAccessToken g w))
               (worldOf (GetAccessToken g w)))
  = Return token None
  /\ http.posts (net (worldOf (GetAccessToken (grantOf (GetAccessToken g w))
                                 (worldOf (GetAccessToken g w)))))
     = http.posts (net (worldOf (GetAccessToken g w)))
  /\ grantOf (GetAccessToken (grantOf (GetAccessToken g w))
                (worldOf (GetAccessToken g w)))
     = grantOf (GetAccessToken g w).
Proof.
  intros H1 Hg Hle.
  destruct (GetAccessToken_success_token g w token H1) as [gr' [Hg' Ht]].
  assert (gr' = gr) by congruence. subst gr'.
  rewrite (GetAccessToken_fresh _ _ gr Hg Hle).
  unfold outcomeOf, grantOf, worldOf. cbn [fst snd].
  repeat split. congruence.
Qed.

Lemma calls_fixed (n : nat) (g : Grant) (w : World) :
  GetAccessToken g w = (outcomeOf (GetAccessToken g w), g, w) ->
  calls n g w = (g, w).
Proof.
  intros H. induction n as [| n IH]; [reflexivity |].
  cbn [calls]. rewrite H. unfold grantOf, worldOf. cbn [fst snd]. exact IH.
Qed.

(** Under a stopped clock a fresh cache is left as it is by any number of
    calls. *)
Lemma calls_stopped (g : Grant) (w : World) (t : time.Time) (gr : clientCredsGrant) :
  stoppedAt t (nowFn g) ->
  grant g = Some gr ->
  t <= time.Add (issuedAt g) (ExpiresIn gr) ->
  forall n : nat,
    calls n g w = (g, w)
    /\ outcomeOf (GetAccessToken (fst (calls n g w)) (snd (calls n g w)))
       = Return (AccessToken gr) None.
Proof.
  intros Hs Hg Hle n.
  assert (Hc : currentTime g w = t) by (unfold currentTime; rewrite Hs; reflexivity).
  assert (Hw : afterReading g w = w).
  { unfold afterReading. rewrite Hs. destruct w. reflexivity. }
  assert (HG : GetAccessToken g w = (Return (AccessToken gr) None, g, w)).
  { rewrite (GetAccessToken_fresh g w gr Hg) by (rewrite Hc; exact Hle).
    rewrite Hw. reflexivity. }
  assert (HF : calls n g w = (g, w)).
  { apply calls_fixed. rewrite HG. reflexivity. }
  rewrite HF. cbn [fst snd]. rewrite HG. split; reflexivity.
Qed.

Lemma GetAccessToken_error_inv (g : Grant) (w : World) (token : string)
    (e : error) :
  outcomeOf (GetAccessToken g w) = Return token (Some e) ->
  fst (needsRenew g w) = true
  /\ grantOf (GetAccessToken g w) = g
  /\ worldOf (GetAccessToken g w) = posted g (snd (needsRenew g w)).
Proof.
  unfold outcomeOf, grantOf, worldOf. rewrite GetAccessToken_unfold.
  destruct (fst (needsRenew g w)).
  - destruct (fst (fst (renewGrant g (snd (needsRenew g w))))) as [e0 |] eqn:ER;
      cbn [fst snd].
    + intros _. split; [reflexivity |].
      split; [apply (renewGrant_failure_keeps _ _ e0 ER) |].
      revert ER. rewrite renewGrant_unfold.
      destruct (answerTo g _) as [resp | m]; [| reflexivity].
      destruct (negb _); [reflexivity |].
      destruct (Decode_clientCredsGrant _ _) as [d [je |]]; [reflexivity |].
      destruct (nowFn g _). cbn. discriminate.
    + unfold returnAccessToken. destruct (grant _); discriminate.
  - cbn [fst]. unfold returnAccessToken. destruct (grant g); discriminate.
Qed.

(** X3. A failure is not remembered.  When a call returns an error and the
    time source does not go back, the cache is as it was and still stale,
    and the next call issues the POST again: two calls, two POSTs. *)
Theorem X3_failure_is_not_cached (g : Grant) (w : World) (token : string) (e : error) :
  outcomeOf (GetAccessToken g w) = Return token (Some e) ->
  (grant g <> None ->
   currentTime g w <= currentTime g (worldOf (GetAccessToken g w))) ->
  grantOf (GetAccessToken g w) = g
  /\ Stale g (worldOf (GetAccessToken g w))
  /\ http.posts (net (worldOf (GetAccessToken g (worldOf (GetAccessToken g w)))))
     = (http.posts (net w) ++ [renewalRequest g; renewalRequest g])%list.
Proof.
  intros H Hclock.
  destruct (GetAccessToken_error_inv g w token e H) as [HS [HG HW]].
  assert (HS1 : Stale g (worldOf (GetAccessToken g w))).
  { apply needsRenew_Stale in HS. destruct HS as [HN | [gr [Hg Hlt]]].
    - left. exact HN.
    - right. exists gr. split; [exact Hg |].
      assert (Hne : grant g <> None) by congruence.
      specialize (Hclock Hne). lia. }
  split; [exact HG |]. split; [exact HS1 |].
  apply needsRenew_Stale in HS1. unfold worldOf in *.
  rewrite GetAccessToken_posts, HS1, HW. cbn [posted net http.posts]. rewrite needsRenew_net.
  rewrite <- List.app_assoc. reflexivity.
Qed.

Lemma renewalRequest_config (g g' : Grant) :
  tokenURL g' = tokenURL g -> credRequest g' = credRequest g ->
  renewalRequest g' = renewalRequest g.
Proof. intros H1 H2. unfold renewalRequest. rewrite H1, H2. reflexivity. Qed.

(** X4. Whatever happens during [n] calls in a row, they issue at most [n]
    POSTs, every one of them the same request (same URL, content type and
    body), and they leave the URL, the request and the time source of the
    [Grant] unchanged. *)
Theorem X4_posts_of_any_calls (n : nat) (g : Grant) (w : World) :
  exists k : nat,
    (k <= n)%nat
    /\ http.posts (net (snd (calls n g w)))
       = (http.posts (net w) ++ List.repeat (renewalRequest g) k)%list
    /\ tokenURL (fst (calls n g w)) = tokenURL g
    /\ credRequest (fst (calls n g w)) = credRequest g
    /\ nowFn (fst (calls n g w)) = nowFn g.
Proof.
  revert g w. induction n as [| n IH]; intros g w.
  - exists 0%nat. cbn. rewrite List.app_nil_r. repeat split. lia.
  - cbn [calls].
    destruct (GetAccessToken_config g w) as [C1 [C2 C3]].
    destruct (IH (grantOf (GetAccessToken g w)) (worldOf (GetAccessToken g w)))
      as [k [Hk [HP [H1 [H2 H3]]]]].
    rewrite (renewalRequest_config g _ C2 C1) in HP.
    pose proof (GetAccessToken_posts g w) as HG.
    destruct (fst (needsRenew g w)).
    + exists (S k). split; [lia |]. split.
      * rewrite HP. unfold worldOf. rewrite HG, <- List.app_assoc. reflexivity.
      * repeat split; congruence.
    + exists k. split; [lia |]. split.
      * rewrite HP. unfold worldOf. rewrite HG. reflexivity.
      * repeat split; congruence.
Qed.

Lemma mul_Second_exact (d : Z) :
  - 9223372036 <= d <= 9223372036 -> time.mul d time.Second = d * 1000000000.
Proof.
  intros H. unfold time.mul, time.Second. apply wrap64_small. lia.
Qed.

Lemma mul_Second_negative (d : Z) :
  - 9223372036 <= d < 0 \/ 9223372037 <= d <= 18446744073 ->
  time.mul d time.Second < 0.
Proof.
  intros H. unfold time.mul, time.Second, time.wrap64.
  destruct H as [H | H].
  - rewrite Z.mod_small by lia. lia.
  - replace (d * 1000000000 + 2 ^ 63)
      with ((d * 1000000000 - 2 ^ 63) + 1 * 2 ^ 64) by lia.
    rewrite Z.mod_add by lia. rewrite Z.mod_small by lia. lia.
Qed.

(** What a call on a stale cache leaves when the response is decoded. *)
Lemma GetAccessToken_renewed (g : Grant) (w : World) (resp : http.Response)
    (d : clientCredsGrant) :
  Stale g w ->
  answerTo g w = inl resp ->
  http.StatusCode resp = http.StatusOK ->
  Decode_clientCredsGrant (http.Body resp) clientCredsGrant_zero = (d, None) ->
  grantOf (GetAccessToken g w)
  = mkGrant (Some (renewed d)) (currentTime g (snd (needsRenew g w)))
      (tokenURL g) (credRequest g) (nowFn g).
Proof.
  intros HS HA HC HD. apply needsRenew_Stale in HS.
  assert (HR : fst (renewGrant g (snd (needsRenew g w)))
               = (None, mkGrant (Some (renewed d))
                          (currentTime g (snd (needsRenew g w))) (tokenURL g)
                          (credRequest g) (nowFn g))).
  { apply (renewGrant_decoded _ _ resp); [| exact HC | exact HD].
    unfold answerTo in *. rewrite needsRenew_net. exact HA. }
  unfold grantOf. rewrite GetAccessToken_unfold, HS.
  destruct (renewGrant g (snd (needsRenew g w))) as [[err g'] w2].
  cbn [fst snd] in *. injection HR as -> ->. reflexivity.
Qed.

(** X5. The window of a renewed grant.  After a renewal that decoded an
    [expires_in] of [d] seconds, with [d] from 0 to 9223372036, a later
    call issues no POST exactly when the reading of the time source is at
    most [issuedAt + d] seconds, the last instant included; it then returns
    the access token of the response. *)
Theorem X5_validity_window (g : Grant) (w : World) (resp : http.Response)
    (d : clientCredsGrant) :
  Stale g w ->
  answerTo g w = inl resp ->
  http.StatusCode resp = 200 ->
  Decode_clientCredsGrant (http.Body resp) clientCredsGrant_zero = (d, None) ->
  0 <= ExpiresIn d <= 9223372036 ->
  forall w' : World,
    (renewalCalls w' (worldOf (GetAccessToken (grantOf (GetAccessToken g w)) w'))
     = 0%nat
     <-> currentTime (grantOf (GetAccessToken g w)) w'
         <= issuedAt (grantOf (GetAccessToken g w))
            + ExpiresIn d * 1000000000)
    /\ (currentTime (grantOf (GetAccessToken g w)) w'
        <= issuedAt (grantOf (GetAccessToken g w)) + ExpiresIn d * 1000000000 ->
        outcomeOf (GetAccessToken (grantOf (GetAccessToken g w)) w')
        = Return (AccessToken d) None).
Proof.
  intros HS HA HC HD Hd w'.
  rewrite (GetAccessToken_renewed g w resp d HS HA HC HD).
  set (g' := mkGrant _ _ _ _ _).
  assert (Hg : grant g' = Some (renewed d)) by reflexivity.
  assert (HE : time.Add (issuedAt g') (ExpiresIn (renewed d))
               = issuedAt g' + ExpiresIn d * 1000000000).
  { unfold time.Add. cbn [renewed ExpiresIn]. rewrite mul_Second_exact by lia.
    reflexivity. }
  split.
  - unfold worldOf. rewrite GetAccessToken_renewalCalls.
    rewrite needsRenew_unfold, Hg. cbn [fst]. rewrite HE.
    unfold time.After. destruct (Z.ltb_spec (issuedAt g' + ExpiresIn d * 1000000000)
                                   (currentTime g' w')); split; intros; try lia; try discriminate.
  - intros Hle. rewrite (GetAccessToken_fresh g' w' (renewed d) Hg)
      by (rewrite HE; exact Hle).
    reflexivity.
Qed.

(** X6. A grant that is never served from the cache.  When the decoded
    [expires_in] is negative, or so large that its product by
    [time.Second] wraps around to a negative [int64] (from 9223372037 to
    18446744073 seconds), the renewal succeeds, but the grant is stale at
    every reading that is not before [issuedAt]: every later call renews
    again. *)
Theorem X6_negative_expiry_never_cached (g : Grant) (w : World) (resp : http.Response)
    (d : clientCredsGrant) :
  Stale g w ->
  answerTo g w = inl resp ->
  http.StatusCode resp = 200 ->
  Decode_clientCredsGrant (http.Body resp) clientCredsGrant_zero = (d, None) ->
  - 9223372036 <= ExpiresIn d < 0
  \/ 9223372037 <= ExpiresIn d <= 18446744073 ->
  forall w' : World,
    issuedAt (grantOf (GetAccessToken g w))
    <= currentTime (grantOf (GetAccessToken g w)) w' ->
    Stale (grantOf (GetAccessToken g w)) w'
    /\ renewalCalls w' (worldOf (GetAccessToken (grantOf (GetAccessToken g w)) w'))
       = 1%nat.
Proof.
  intros HS HA HC HD Hd w'.
  rewrite (GetAccessToken_renewed g w resp d HS HA HC HD).
  set (g' := mkGrant _ _ _ _ _). intros Hle.
  assert (HS' : Stale g' w').
  { right. exists (renewed d). split; [reflexivity |].
    unfold time.Add. cbn [renewed ExpiresIn].
    pose proof (mul_Second_negative (ExpiresIn d) Hd). lia. }
  split; [exact HS' |].
  unfold worldOf. rewrite GetAccessToken_renewalCalls.
  apply needsRenew_Stale in HS'. rewrite HS'. reflexivity.
Qed.

(** X7. A renewal does not look at what the cache holds: two [Grant]s with
    the same URL, request and time source get the same error from it and
    leave the same world, and when it succeeds they are left equal, grant
    and [issuedAt] included. *)
Theorem X7_renewal_ignores_cache (g1 g2 : Grant) (w : World) :
  tokenURL g1 = tokenURL g2 ->
  credRequest g1 = credRequest g2 ->
  nowFn g1 = nowFn g2 ->
  fst (fst (renewGrant g1 w)) = fst (fst (renewGrant g2 w))
  /\ snd (renewGrant g1 w) = snd (renewGrant g2 w)
  /\ (fst (fst (renewGrant g1 w)) = None ->
      snd (fst (renewGrant g1 w)) = snd (fst (renewGrant g2 w))).
Proof.
  intros H1 H2 H3.
  assert (HR : renewalRequest g1 = renewalRequest g2)
    by (apply renewalRequest_config; assumption).
  rewrite !renewGrant_unfold. unfold answerTo, posted. rewrite HR, H1, H2, H3.
  destruct (http.answer _ _ _) as [resp | m].
  - destruct (negb _); [repeat split; discriminate |].
    destruct (Decode_clientCredsGrant _ _) as [d [je |]];
      [repeat split; discriminate |].
    destruct (nowFn g2 (clock w)). repeat split.
  - repeat split. discriminate.
Qed.

(** ** Decoding *)

Lemma Decode_CredentialsRequest_payload (c : CredentialsRequest) :
  Decode_CredentialsRequest (payloadOf c) CredentialsRequest_zero
  = (coerced c, None).
Proof.
  unfold Decode_CredentialsRequest. rewrite readValue_payload.
  reflexivity.
Qed.

Lemma coerced_valid (c : CredentialsRequest) :
  validRequest c -> coerced c = c.
Proof.
  intros [H1 [H2 [H3 H4]]]. unfold coerced.
  rewrite !toValidUTF8_valid by assumption. destruct c. reflexivity.
Qed.

(** X8. The request survives the wire.  When the four fields of the request
    are valid UTF-8, the body of the POST of a renewal decodes, the way
    the handler of the test server decodes it, to the very request the
    [Grant] holds, without error. *)
Theorem X8_request_round_trip (g : Grant) (w : World) :
  validRequest (credRequest g) ->
  exists req : http.Request,
    http.posts (net (worldOf (renewGrant g w)))
    = (http.posts (net w) ++ [req])%list
    /\ Decode_CredentialsRequest (http.Payload req) CredentialsRequest_zero
       = (credRequest g, None).
Proof.
  intros HV. exists (renewalRequest g). split.
  - apply renewGrant_posts.
  - rewrite renewalRequest_payload. cbn [http.Payload].
    rewrite Decode_CredentialsRequest_payload, coerced_valid by exact HV.
    reflexivity.
Qed.




(** ** The earlier version *)

Lemma V0_renewGrant_ofGrant (g : Grant) (w : World) :
  V0.renewGrant (ofGrant g) w
  = (fst (fst (renewGrant g w)), ofGrant (snd (fst (renewGrant g w))),
     snd (renewGrant g w)).
Proof.
  unfold V0.renewGrant, renewGrant, ofGrant.
  cbn [V0.credRequest V0.tokenURL V0.nowFn option_map Marshal_pointer].
  destruct (json.Marshal (CredentialsRequest_value (credRequest g)))
    as [payload [e |]]; [reflexivity |].
  unfold bind, http_Post, ret, call.
  destruct (http.answer _ _ _) as [resp | m]; [| reflexivity].
  destruct (negb _); [reflexivity |].
  destruct (Decode_clientCredsGrant _ _) as [d [je |]]; [reflexivity |].
  cbn [clock net]. destruct (nowFn g (clock w)) as [now c]. reflexivity.
Qed.

Lemma V0_needsRenew_ofGrant (g : Grant) (w : World) :
  V0.needsRenew (ofGrant g) w = needsRenew g w.
Proof. reflexivity. Qed.

(** X10. The earlier version of the file, given a request that is not nil,
    does what the later one does: same outcome, same world, and the same
    cache. *)
Theorem X10_earlier_version_agrees (g : Grant) (w : World) :
  V0.GetAccessToken (ofGrant g) w
  = (outcomeOf (GetAccessToken g w),
     ofGrant (grantOf (GetAccessToken g w)),
     worldOf (GetAccessToken g w)).
Proof.
  unfold V0.GetAccessToken, GetAccessToken, outcomeOf, grantOf, worldOf, bind.
  rewrite V0_needsRenew_ofGrant.
  destruct (needsRenew g w) as [stale w1].
  destruct stale; [| reflexivity].
  rewrite V0_renewGrant_ofGrant.
  destruct (renewGrant g w1) as [[err g'] w2]. cbn [fst snd].
  destruct err; reflexivity.
Qed.

(** X11. In the earlier version [NewGrant] takes a nil request without
    complaint: the first call does not panic and does not fail in the
    serialization; it posts the JSON text [null] to the URL. *)
Theorem X11_nil_request (url : string) (w : World) :
  http.posts (net (snd (V0.GetAccessToken (V0.NewGrant url None) w)))
  = (http.posts (net w) ++ [http.mkRequest url "application/json" "null"])%list
  /\ fst (fst (V0.GetAccessToken (V0.NewGrant url None) w)) <> Panic
  /\ forall e : json.error,
       fst (fst (V0.GetAccessToken (V0.NewGrant url None) w))
       <> Return "" (Some (Wrap (Wrap (JSONError e) "json encode cred request")
                             "renew grant")).
Proof.
  unfold V0.GetAccessToken, V0.needsRenew, V0.NewGrant, V0.renewGrant, bind, ret.
  cbn [V0.grant V0.credRequest V0.tokenURL V0.nowFn option_map Marshal_pointer].
  unfold http_Post, call.
  destruct (http.answer _ _ _) as [resp | m].
  - destruct (negb _); [cbn; repeat split; try discriminate |].
    destruct (Decode_clientCredsGrant _ _) as [d [je |]];
      [cbn; repeat split; try discriminate |].
    cbn [clock net]. unfold time.Now. cbn. repeat split; discriminate.
  - cbn. repeat split; discriminate.
Qed.

(** ** A response with status 200 *)


(** ** Fetched once *)

(** X12. Fetched once, then served from the cache.  Under a stopped clock,
    when the first call on a stale cache is answered with a grant whose
    [expires_in] is from 0 to 9223372036 seconds, any number of calls
    issue that one POST altogether, and every further call returns the
    access token of the response. *)
Theorem X12_fetched_once (g : Grant) (w : World) (resp : http.Response)
    (d : clientCredsGrant) (t : time.Time) :
  Stale g w ->
  stoppedAt t (nowFn g) ->
  answerTo g w = inl resp ->
  http.StatusCode resp = 200 ->
  Decode_clientCredsGrant (http.Body resp) clientCredsGrant_zero = (d, None) ->
  0 <= ExpiresIn d <= 9223372036 ->
  forall n : nat,
    http.posts (net (snd (calls (S n) g w)))
    = (http.posts (net w) ++ [renewalRequest g])%list
    /\ outcomeOf (GetAccessToken (fst (calls (S n) g w)) (snd (calls (S n) g w)))
       = Return (AccessToken d) None.
Proof.
  intros HS Ht HA HC HD Hd n. cbn [calls].
  pose proof (GetAccessToken_renewed g w resp d HS HA HC HD) as HG.
  assert (Hcur : currentTime g (snd (needsRenew g w)) = t)
    by (unfold currentTime; rewrite Ht; reflexivity).
  rewrite Hcur in HG.
  assert (HP : http.posts (net (worldOf (GetAccessToken g w)))
               = (http.posts (net w) ++ [renewalRequest g])%list).
  { unfold worldOf. rewrite GetAccessToken_posts.
    apply needsRenew_Stale in HS. rewrite HS. reflexivity. }
  rewrite HG.
  set (g1 := mkGrant _ _ _ _ _).
  assert (Hfresh : t <= time.Add (issuedAt g1) (ExpiresIn (renewed d))).
  { unfold time.Add. cbn [g1 issuedAt renewed ExpiresIn].
    rewrite mul_Second_exact by lia. lia. }
  destruct (calls_stopped g1 (worldOf (GetAccessToken g w)) t (renewed d)
              Ht eq_refl Hfresh n) as [H1 H2].
  rewrite H1 in *. cbn [fst snd] in *. split; [exact HP | exact H2].
Qed.

(** ** Instances of the further properties *)

Lemma testNowFn_stopped (offset : Z) :
  stoppedAt (time.Unix offset 0) (testNowFn offset).
Proof. intros c. reflexivity. Qed.

Lemma X1_witness :
  outcomeOf (GetAccessToken emptyCache testWorld) = Return "open-sesame" None
  /\ exists gr : clientCredsGrant,
       grant (grantOf (GetAccessToken emptyCache testWorld)) = Some gr
       /\ AccessToken gr = "open-sesame".
Proof.
  split; [reflexivity |].
  apply (proj2 (X1_never_panics emptyCache testWorld)). reflexivity.
Defined.

Lemma X2_witness :
  outcomeOf (GetAccessToken emptyCache testWorld) = Return "open-sesame" None
  /\ outcomeOf (GetAccessToken (grantOf (GetAccessToken emptyCache testWorld))
                  (worldOf (GetAccessToken emptyCache testWorld)))
     = Return "open-sesame" None.
Proof.
  split; [reflexivity |].
  apply (X2_second_call_cached emptyCache testWorld "open-sesame" testGrant).
  - reflexivity.
  - reflexivity.
  - vm_compute. discriminate.
Defined.

Lemma X3_witness :
  outcomeOf (GetAccessToken emptyCache (worldAnswering serverError))
  = Return ""
      (Some (Wrap (Errorf "response status: 500 Internal Server Error, body: server error")
               "renew grant"))
  /\ http.posts
       (net (worldOf (GetAccessToken emptyCache
                        (worldOf (GetAccessToken emptyCache
                                    (worldAnswering serverError))))))
     = [renewalRequest emptyCache; renewalRequest emptyCache].
Proof.
  split; [reflexivity |].
  apply (X3_failure_is_not_cached emptyCache (worldAnswering serverError) ""
           (Wrap (Errorf "response status: 500 Internal Server Error, body: server error")
              "renew grant")).
  - reflexivity.
  - intros H. elim H. reflexivity.
Defined.

Lemma X5_witness :
  Stale emptyCache testWorld
  /\ forall w' : World,
       currentTime (grantOf (GetAccessToken emptyCache testWorld)) w'
       <= issuedAt (grantOf (GetAccessToken emptyCache testWorld))
          + 1 * 1000000000 ->
       outcomeOf (GetAccessToken (grantOf (GetAccessToken emptyCache testWorld)) w')
       = Return "open-sesame" None.
Proof.
  assert (HS : Stale emptyCache testWorld) by (left; reflexivity).
  split; [exact HS |]. intros w'.
  apply (X5_validity_window emptyCache testWorld
           (http.mkResponse 200 "200 OK" testGrantResponse)
           (mkClientCredsGrant "open-sesame" "u-cant-touch-dis" 1 "Bearer")
           HS eq_refl eq_refl Decode_testGrantResponse).
  cbn. lia.
Defined.

Lemma X6_witness :
  Stale emptyCache (worldAnswering negativeExpiry)
  /\ outcomeOf (GetAccessToken emptyCache (worldAnswering negativeExpiry))
     = Return "open-sesame" None
  /\ renewalCalls (worldOf (GetAccessToken emptyCache (worldAnswering negativeExpiry)))
       (worldOf (GetAccessToken
                   (grantOf (GetAccessToken emptyCache (worldAnswering negativeExpiry)))
                   (worldOf (GetAccessToken emptyCache (worldAnswering negativeExpiry)))))
     = 1%nat.
Proof.
  assert (HS : Stale emptyCache (worldAnswering negativeExpiry))
    by (left; reflexivity).
  split; [exact HS |]. split; [reflexivity |].
  apply (X6_negative_expiry_never_cached emptyCache
           (worldAnswering negativeExpiry) negativeExpiry
           (mkClientCredsGrant "open-sesame" "" (-1) "")
           HS eq_refl eq_refl).
  - vm_compute. reflexivity.
  - left. cbn. lia.
  - vm_compute. discriminate.
Defined.

Lemma X7_witness :
  fst (fst (renewGrant emptyCache testWorld)) = None
  /\ snd (fst (renewGrant emptyCache testWorld))
     = snd (fst (renewGrant freshCache testWorld)).
Proof.
  split; [reflexivity |].
  apply (X7_renewal_ignores_cache emptyCache freshCache testWorld);
    reflexivity.
Defined.

Lemma X8_witness :
  validRequest (credRequest emptyCache)
  /\ exists req : http.Request,
       http.posts (net (worldOf (renewGrant emptyCache testWorld)))
       = (http.posts (net testWorld) ++ [req])%list
       /\ Decode_CredentialsRequest (http.Payload req) CredentialsRequest_zero
          = (credRequest emptyCache, None).
Proof.
  assert (HV : validRequest (credRequest emptyCache))
    by (repeat split; vm_compute; reflexivity).
  split; [exact HV |].
  apply (X8_request_round_trip emptyCache testWorld HV).
Defined.


Lemma X12_witness :
  Stale emptyCache testWorld
  /\ stoppedAt (time.Unix 1 0) (nowFn emptyCache)
  /\ http.posts (net (snd (calls 4 emptyCache testWorld)))
     = (http.posts (net testWorld) ++ [renewalRequest emptyCache])%list
  /\ outcomeOf (GetAccessToken (fst (calls 4 emptyCache testWorld))
                  (snd (calls 4 emptyCache testWorld)))
     = Return "open-sesame" None.
Proof.
  assert (HS : Stale emptyCache testWorld) by (left; reflexivity).
  split; [exact HS |]. split; [apply testNowFn_stopped |].
  apply (X12_fetched_once emptyCache testWorld
           (http.mkResponse 200 "200 OK" testGrantResponse)
           (mkClientCredsGrant "open-sesame" "u-cant-touch-dis" 1 "Bearer")
           (time.Unix 1 0) HS (testNowFn_stopped 1) eq_refl eq_refl
           Decode_testGrantResponse).
  cbn. lia.
Defined.
